(** * docker-image-updater: drift detection and container replacement

    A shallow embedding of [image-updater.js].  The script talks to the
    Docker engine through [dockerode]; every engine call is asynchronous and
    may be rejected.  The embedding therefore has three layers:

    - [Engine]: the container engine as a small state machine (containers
      with unique names, a local image cache, a registry) together with a
      schedule of injected faults, so that every call can fail;
    - [Async]: a state-and-exception monad that also emits the sequence of
      engine calls a run issues and which of their results the program
      waited for ([await]) or dropped ([fire]);
    - [Updater]: the four functions of [image-updater.js], written in that
      monad statement by statement. *)

From stdpp Require Import base option list strings gmap.
From Stdlib Require Import ZArith Ascii.

Open Scope Z_scope.
Open Scope string_scope.
Open Scope list_scope.
Open Scope general_if_scope.

(** ** JSON values and JS objects *)

#[local] Set Warnings "-register-all".

Inductive json : Type :=
| JNull
| JBool (b : bool)
| JNum (n : Z)
| JStr (s : string)
| JArr (items : list json)
| JObj (fields : list (string * json)).

(** A JS object used as a record of named properties. *)
Abbreviation obj := (gmap string json).

(** ** The container engine *)

(** Modelled from the spec: the Container Engine capability (the Docker
    daemon behind [dockerode], which is not part of the repository).  Its
    operations are those of the interface the script consumes: list, inspect,
    create, start, stop, rename and remove containers, pull and inspect
    images.  A container [name] is unique; a call that addresses a missing
    container answers 404.  Any other refusal of the real engine is covered
    by the fault schedule: every call can be made to fail. *)
Module Engine.

(** What the engine keeps about one container.  [cImage] is the image
    reference the container was created with ([Config.Image] of an inspect),
    [cImageId] the content id of the image it runs ([Image] of an inspect). *)
Record container : Type := Container {
  cId : nat;
  cName : string;
  cImage : string;
  cImageId : string;
  cConfig : obj;
  cHostConfig : json;
  cPorts : json;
  cMounts : json;
  cRunning : bool
}.

Definition withName (n : string) (c : container) : container :=
  Container (cId c) n (cImage c) (cImageId c) (cConfig c) (cHostConfig c)
            (cPorts c) (cMounts c) (cRunning c).

Definition withRunning (b : bool) (c : container) : container :=
  Container (cId c) (cName c) (cImage c) (cImageId c) (cConfig c)
            (cHostConfig c) (cPorts c) (cMounts c) b.

(** An injected outcome for the next engine call: [Fail s] makes the call
    answer with HTTP status [s] and leaves the engine untouched. *)
Inductive fault : Type :=
| NoFault
| Fail (status : Z).

Record World : Type := MkWorld {
  containers : list container;
  images : gmap string string;     (* local cache: reference -> content id *)
  registry : gmap string string;   (* remote: reference -> content id *)
  nextId : nat;
  faults : list fault
}.

Definition setContainers (cs : list container) (w : World) : World :=
  MkWorld cs (images w) (registry w) (nextId w) (faults w).

Definition setImages (im : gmap string string) (w : World) : World :=
  MkWorld (containers w) im (registry w) (nextId w) (faults w).

Definition nextFault (w : World) : fault := default NoFault (head (faults w)).

Definition dropFault (w : World) : World :=
  MkWorld (containers w) (images w) (registry w) (nextId w) (tail (faults w)).

(** Errors a JS promise can be rejected with in this program: an engine
    (HTTP) error carrying its [statusCode], or a [TypeError] raised by a
    property access on [undefined]. *)
Inductive error : Type :=
| EngineError (status : Z)
| TypeError.

Inductive result (A : Type) : Type :=
| Ok (a : A)
| Throw (e : error).
Arguments Ok {A} a.
Arguments Throw {A} e.

(** [err.statusCode]; a [TypeError] has none. *)
Definition statusCode (e : error) : option Z :=
  match e with
  | EngineError s => Some s
  | TypeError => None
  end.

Definition isOk {A} (r : result A) : bool :=
  match r with Ok _ => true | Throw _ => false end.

(** A container handle: [docker.getContainer(name)] addresses by name, the
    handle returned by [createContainer] addresses by id. *)
Inductive handle : Type :=
| ByName (n : string)
| ById (i : nat).

Definition refersTo (h : handle) (c : container) : Prop :=
  match h with
  | ByName n => cName c = n
  | ById i => cId c = i
  end.

#[global] Instance refersTo_dec h c : Decision (refersTo h c).
Proof. destruct h; simpl; apply _. Defined.

Definition lookupC (h : handle) (cs : list container) : option container :=
  head (filter (refersTo h) cs).

Definition updateC (h : handle) (f : container -> container)
    (cs : list container) : list container :=
  (fun c => if decide (refersTo h c) then f c else c) <$> cs.

Definition removeC (h : handle) (cs : list container) : list container :=
  filter (fun c => ¬ refersTo h c) cs.

(** The containers that currently hold the name [n]. *)
Definition named (n : string) (w : World) : list container :=
  filter (fun c => cName c = n) (containers w).

(** The containers that hold neither the name [target] nor its temporary
    name [target-old-temp]. *)
Definition others (target : string) (cs : list container) : list container :=
  filter (fun c => cName c ≠ target ∧ cName c ≠ target +:+ "-old-temp") cs.

(** The result of [container.inspect()], restricted to what the script reads
    or copies. *)
Record ConfigData : Type := MkConfig {
  cfgImage : string;     (* Config.Image *)
  cfgRest : obj          (* Env, Labels, Cmd, ... *)
}.

Record NetworkData : Type := MkNetwork { Ports : json }.

Record ContainerData : Type := MkData {
  Image : string;
  Config : ConfigData;
  NetworkSettings : NetworkData;
  HostConfig : json;
  Mounts : json
}.

Definition inspectData (c : container) : ContainerData :=
  MkData (cImageId c) (MkConfig (cImage c) (cConfig c))
         (MkNetwork (cPorts c)) (cHostConfig c) (cMounts c).

(** The result of [image.inspect()]. *)
Record ImageData : Type := MkImage { Id : string }.

(** One line of the progress output of a pull. *)
Record progress : Type := MkProgress { id : option string; status : string }.

(** One entry of [docker.listContainers()]. *)
Definition summary (c : container) : obj :=
  <["Id" := JNum (Z.of_nat (cId c))]>
  (<["Names" := JArr [JStr ("/" +:+ cName c)]]>
  (<["Image" := JStr (cImage c)]>
  (<["ImageID" := JStr (cImageId c)]>
  (<["Mounts" := cMounts c]>
  (<["State" := JStr "running"]> ∅))))).

Definition jfield (k : string) (j : json) : json :=
  match j with
  | JObj fs => default JNull (snd <$> head (filter (fun p => p.1 = k) fs))
  | _ => JNull
  end.

(** An engine call: a state transformer that may answer with an error. *)
Definition call (A : Type) : Type := World -> result A * World.

(** Every call first consumes the next scheduled fault. *)
Definition guarded {A} (body : call A) : call A := fun w =>
  match nextFault w with
  | Fail s => (Throw (EngineError s), dropFault w)
  | NoFault => body (dropFault w)
  end.

Definition listContainers : call (list obj) :=
  guarded (fun w => (Ok (summary <$> filter (fun c => cRunning c = true) (containers w)), w)).

Definition inspect (h : handle) : call ContainerData :=
  guarded (fun w =>
    match lookupC h (containers w) with
    | Some c => (Ok (inspectData c), w)
    | None => (Throw (EngineError 404), w)
    end).

(** Names are unique: renaming to a name in use is refused (409). *)
Definition rename (h : handle) (newName : string) : call unit :=
  guarded (fun w =>
    match lookupC h (containers w) with
    | None => (Throw (EngineError 404), w)
    | Some _ =>
        match lookupC (ByName newName) (containers w) with
        | Some _ => (Throw (EngineError 409), w)
        | None => (Ok (), setContainers (updateC h (withName newName) (containers w)) w)
        end
    end).

Definition start (h : handle) : call unit :=
  guarded (fun w =>
    match lookupC h (containers w) with
    | None => (Throw (EngineError 404), w)
    | Some _ => (Ok (), setContainers (updateC h (withRunning true) (containers w)) w)
    end).

Definition stop (h : handle) : call unit :=
  guarded (fun w =>
    match lookupC h (containers w) with
    | None => (Throw (EngineError 404), w)
    | Some _ => (Ok (), setContainers (updateC h (withRunning false) (containers w)) w)
    end).

Definition remove (h : handle) : call unit :=
  guarded (fun w =>
    match lookupC h (containers w) with
    | None => (Throw (EngineError 404), w)
    | Some _ => (Ok (), setContainers (removeC h (containers w)) w)
    end).

(** [docker.createContainer(payload)]: the name comes from [payload.name],
    the image from [payload.Image]; the image must be in the local cache and
    the name must be free.  The new container is created stopped. *)
Definition createContainer (payload : obj) : call handle :=
  guarded (fun w =>
    match payload !! "name", payload !! "Image" with
    | Some (JStr n), Some (JStr ref) =>
        match lookupC (ByName n) (containers w) with
        | Some _ => (Throw (EngineError 409), w)
        | None =>
            match images w !! ref with
            | None => (Throw (EngineError 404), w)
            | Some iid =>
                let hc := default JNull (payload !! "HostConfig") in
                let c := Container (nextId w) n ref iid
                           (delete "HostConfig" (delete "name" (delete "Image" payload)))
                           hc (jfield "PortBindings" hc) (JArr []) false in
                (Ok (ById (nextId w)),
                 MkWorld (containers w ++ [c]) (images w) (registry w)
                         (S (nextId w)) (faults w))
            end
        end
    | _, _ => (Throw (EngineError 400), w)
    end).

(** [docker.pull]: answers with a stream, or 404 when the registry does not
    serve the reference. *)
Definition pull (ref : string) : call string :=
  guarded (fun w =>
    match registry w !! ref with
    | Some rid => (Ok rid, w)
    | None => (Throw (EngineError 404), w)
    end).

(** [docker.modem.followProgress]: consumes the stream; when it finishes the
    local cache holds the pulled content. *)
Definition followProgress (ref rid : string) : call (list progress) :=
  guarded (fun w =>
    let out :=
      if decide (images w !! ref = Some rid)
      then [MkProgress None "Image is up to date"]
      else [MkProgress (Some rid) "Pulling fs layer";
            MkProgress (Some rid) "Pull complete"] in
    (Ok out, setImages (<[ref := rid]> (images w)) w)).

Definition imageInspect (ref : string) : call ImageData :=
  guarded (fun w =>
    match images w !! ref with
    | Some iid => (Ok (MkImage iid), w)
    | None => (Throw (EngineError 404), w)
    end).

End Engine.

(** ** Asynchronous computations *)

Module Async.
Import Engine.

(** The engine calls a run can issue. *)
Inductive request : Type :=
| CList
| CInspect (h : handle)
| CRename (h : handle) (newName : string)
| CCreate (payload : obj)
| CStart (h : handle)
| CStop (h : handle)
| CRemove (h : handle)
| CPull (ref : string)
| CFollow (ref : string)
| CImageInspect (ref : string).

(** What a run emits, in program order: a call is issued; the program
    resumes with the result of a call it waited for; a promise nobody waits
    for is rejected. *)
Inductive event : Type :=
| Issued (c : request)
| Awaited (c : request) (ok : bool)
| Unhandled (c : request) (e : error).

(** An [async] function body: it runs against the engine, resolves or
    rejects, and emits events. *)
Definition M (A : Type) : Type := World -> result A * World * list event.

Definition ret {A} (a : A) : M A := fun w => (Ok a, w, []).

Definition throw {A} (e : error) : M A := fun w => (Throw e, w, []).

Definition bind {A B} (m : M A) (k : A -> M B) : M B := fun w =>
  match m w with
  | (Ok a, w1, t1) => let '(r, w2, t2) := k a w1 in (r, w2, t1 ++ t2)
  | (Throw e, w1, t1) => (Throw e, w1, t1)
  end.

(** [try { m } catch (e) { h e }] *)
Definition tryCatch {A} (m : M A) (h : error -> M A) : M A := fun w =>
  match m w with
  | (Ok a, w1, t1) => (Ok a, w1, t1)
  | (Throw e, w1, t1) => let '(r, w2, t2) := h e w1 in (r, w2, t1 ++ t2)
  end.

(** [await op]: the call is issued and the program continues only with its
    result. *)
Definition await {A} (c : request) (op : call A) : M A := fun w =>
  let '(r, w1) := op w in (r, w1, [Issued c; Awaited c (isOk r)]).

(** [op;] without [await]: the call is issued and the program goes on at
    once; a rejection reaches no handler of the program.  The engine serves
    calls in the order in which they are issued, so the effect of the call
    takes place here. *)
Definition fire {A} (c : request) (op : call A) : M unit := fun w =>
  let '(r, w1) := op w in
  (Ok (), w1,
   Issued c :: match r with Ok _ => [] | Throw e => [Unhandled c e] end).

(** A node-style call [op(..., (err, data) => cb)]: the callback runs with
    the outcome of the call. *)
Definition callback {A B} (c : request) (op : call A)
    (cb : result A -> M B) : M B := fun w =>
  let '(r, w1) := op w in
  let '(r2, w2, t2) := cb r w1 in
  (r2, w2, Issued c :: Awaited c (isOk r) :: t2).

#[global] Instance M_ret : MRet M := @ret.
#[global] Instance M_bind : MBind M := fun A B k m => bind m k.

(** An event that reports no failure. *)
Definition succeeded (e : event) : bool :=
  match e with
  | Issued _ => true
  | Awaited _ ok => ok
  | Unhandled _ _ => false
  end.

(** The events that concern a start call. *)
Definition aboutStart (e : event) : bool :=
  match e with
  | Issued (CStart _) | Awaited (CStart _) _ | Unhandled (CStart _) _ => true
  | _ => false
  end.

(** The calls that only read the engine's containers: inspect, pull, follow
    and image inspect. *)
Definition readsOnly (e : event) : bool :=
  match e with
  | Issued c | Awaited c _ | Unhandled c _ =>
      match c with
      | CInspect _ | CPull _ | CFollow _ | CImageInspect _ => true
      | _ => false
      end
  end.

Definition isCreate (e : event) : bool :=
  match e with Issued (CCreate _) => true | _ => false end.

Definition isRemove (e : event) : bool :=
  match e with Issued (CRemove _) => true | _ => false end.

(** The discipline of strictly sequential steps: every call that is issued
    is followed at once by the program resuming with its result. *)
Inductive sequential : list event → Prop :=
| sequential_nil : sequential []
| sequential_step c ok tr :
    sequential tr → sequential (Issued c :: Awaited c ok :: tr).

End Async.

(** ** The updater *)

Module Updater.
Import Engine Async.

(** [containerManagement(containerName, method, renameCtx)]; callers that
    omit [renameCtx] are given the empty string here. *)
Definition containerManagement (containerName method renameCtx : string) : M unit :=
  let container := ByName containerName in
  if decide (method = "start") then
    await (CStart container) (start container)
  else if decide (method = "stop") then
    await (CStop container) (stop container)
  else if decide (method = "rename") then
    await (CRename container renameCtx) (rename container renameCtx)
  else if decide (method = "remove") then
    await (CRemove container) (remove container)
  else
    mret ().

(** [{...containerData.Config}]: the own properties of the inspected
    [Config] section. *)
Definition spreadConfig (c : ConfigData) : obj :=
  <["Image" := JStr (cfgImage c)]> (cfgRest c).

(** The object literal of [updateImage] followed by the assignment to
    [createContainerPayload.HostConfig].  In a spread the later source wins,
    so [Config] overrides [containerInfo]. *)
Definition createContainerPayload (containerInfo : obj)
    (containerData : ContainerData) (targetContainerName : string) : obj :=
  let imageName := cfgImage (Config containerData) in
  <["HostConfig" := JObj [("PortBindings", Ports (NetworkSettings containerData))]]>
  (<["name" := JStr targetContainerName]>
  (<["Image" := JStr imageName]>
  (spreadConfig (Config containerData) ∪ containerInfo))).

Definition updateImage (containerInfo : obj) (targetContainerName : string) : M unit :=
  let oldContainer := ByName targetContainerName in
  containerData ← await (CInspect oldContainer) (inspect oldContainer);
  let oldContainerName := targetContainerName +:+ "-old-temp" in
  tryCatch
    (containerManagement targetContainerName "rename" oldContainerName;;
     let payload := createContainerPayload containerInfo containerData targetContainerName in
     newC ← await (CCreate payload) (createContainer payload);
     containerManagement oldContainerName "stop" "";;
     fire (CStart newC) (start newC);;
     containerManagement oldContainerName "remove" "";;
     mret ())
    (fun createErr =>
       containerManagement oldContainerName "rename" targetContainerName).

(** [output.find(line => line.id && line.status === 'Pull complete')] *)
Definition pullComplete (line : progress) : Prop :=
  match id line with
  | Some i => i ≠ "" ∧ status line = "Pull complete"
  | None => False
  end.

#[global] Instance pullComplete_dec line : Decision (pullComplete line).
Proof. unfold pullComplete. destruct (id line); apply _. Defined.

(** [getRemoteImageId(imageName)]: the promise wrapped around [docker.pull]
    and [followProgress]; [resolve] is [mret], [reject] is [throw]. *)
Definition getRemoteImageId (imageName : string) : M (option string) :=
  callback (CPull imageName) (pull imageName) (fun r =>
    match r with
    | Throw err =>
        if decide (statusCode err = Some 401) then mret None
        else if decide (statusCode err = Some 404) then mret None
        else throw err
    | Ok stream =>
        callback (CFollow imageName) (followProgress imageName stream)
          (fun r =>
             match r with
             | Throw err => throw err
             | Ok output =>
                 let imageIdLine := head (filter pullComplete output) in
                 let imageId := imageIdLine ≫= id in
                 mret imageId
             end)
    end).

(** JS truthiness of a string-or-null. *)
Definition truthy (s : option string) : bool :=
  match s with
  | Some x => bool_decide (x ≠ "")
  | None => false
  end.

Definition checkIfImageNeedsUpdate (containerName : string) : M bool :=
  tryCatch
    (let container := ByName containerName in
     containerData ← await (CInspect container) (inspect container);
     let containerImageId := Image containerData in
     let containerImageName := cfgImage (Config containerData) in
     getRemoteImageId containerImageName;;
     localImage ← tryCatch
       (img ← await (CImageInspect containerImageName) (imageInspect containerImageName);
        mret (Some img))
       (fun err => mret None);
     let localImageId := Id <$> localImage in
     if truthy localImageId && bool_decide (Some containerImageId ≠ localImageId)
     then mret true
     else mret false)
    (fun err => mret true).

(** [containerInfo.Names[0].replace(/^\//, '')].  A listing entry always
    carries an array of strings; anything else raises a [TypeError]. *)
Definition stripSlash (s : string) : string :=
  match s with
  | String "/"%char rest => rest
  | _ => s
  end.

Definition firstName (containerInfo : obj) : M string :=
  match containerInfo !! "Names" with
  | Some (JArr (JStr s :: _)) => mret (stripSlash s)
  | _ => throw TypeError
  end.

(** The [for ... of] loop of [checkForUpdates].  [return updateImage(...)]
    leaves the loop with the promise of the replacement, which the loop does
    not wait for: [Some p] is that promise, [None] is falling off the end. *)
Fixpoint scan (containers : list obj) : M (option (M unit)) :=
  match containers with
  | [] => mret None
  | containerInfo :: rest =>
      containerName ← firstName containerInfo;
      isUpdated ← checkIfImageNeedsUpdate containerName;
      if (isUpdated : bool)
      then mret (Some (updateImage containerInfo containerName))
      else scan rest
  end.

(** [checkForUpdates]: the [try] covers the listing and the loop.  A promise
    returned from inside the [try] settles after the block was left, so the
    [catch] does not see its rejection: the pass settles as that promise
    does. *)
Definition checkForUpdates : M unit :=
  returned ← tryCatch
    (containers ← await CList listContainers;
     scan containers)
    (fun error => mret None);
  match returned with
  | Some promise => promise
  | None => mret ()
  end.

(** [hostConfig.k] of a creation spec. *)
Definition hostConfigField (k : string) (p : obj) : json :=
  jfield k (default JNull (p !! "HostConfig")).

(** [NoDrift cs w w' tr]: starting from engine [w], detection is run on the
    listing entries [cs] in order and answers no-update for each one,
    leaving the engine in [w'] and emitting [tr]. *)
Inductive NoDrift : list obj → World → World → list event → Prop :=
| NoDrift_nil w : NoDrift [] w w []
| NoDrift_cons info name rest w w1 t1 w2 t2 :
    firstName info = mret name →
    checkIfImageNeedsUpdate name w = (Ok false, w1, t1) →
    NoDrift rest w1 w2 t2 →
    NoDrift (info :: rest) w w2 (t1 ++ t2).

(** The names on which a trace shows a container inspect being issued. *)
Definition inspected (tr : list event) : list string :=
  omap (λ e, match e with
             | Issued (CInspect (ByName n)) => Some n
             | _ => None
             end) tr.

End Updater.

(** ** A concrete deployment

    One running container [web] created from [app:latest] at content
    [sha:AAA]; the registry now serves [sha:BBB] under the same reference.
    The local cache and the fault schedule vary per scenario. *)

Module Scenario.
Import Engine.

Definition web : container :=
  Container 0 "web" "app:latest" "sha:AAA"
    {["Env" := JArr [JStr "MODE=prod"]; "Labels" := JObj [("tier", JStr "front")]]}
    (JObj [("Binds", JArr [JStr "/srv/data:/data"]);
           ("PortBindings", JObj [("80/tcp", JArr [JObj [("HostPort", JStr "8080")]])])])
    (JObj [("80/tcp", JArr [JObj [("HostPort", JStr "8080")]])])
    (JArr [JObj [("Source", JStr "/srv/data"); ("Destination", JStr "/data")]])
    true.

Definition world (cache : gmap string string) (fs : list fault) : World :=
  MkWorld [web] cache {["app:latest" := "sha:BBB"]} 1 fs.

Definition cached : gmap string string := {["app:latest" := "sha:AAA"]}.

(** The listing entry of [web] and the creation spec built for it. *)
Definition info : obj := summary web.

Definition spec : obj :=
  Updater.createContainerPayload info (inspectData web) "web".

(** The cache already holds the new content; no fault is scheduled. *)
Definition pulled : World := world {["app:latest" := "sha:BBB"]} [].

(** Fault schedules for one replacement, started when the cache holds the
    new content; the calls are, in order: inspect, rename, create, stop,
    start, remove. *)
Definition renameFails : World :=
  world {["app:latest" := "sha:BBB"]} [NoFault; Fail 500].

Definition createFails : World :=
  world {["app:latest" := "sha:BBB"]} [NoFault; NoFault; Fail 500].

Definition stopFails : World :=
  world {["app:latest" := "sha:BBB"]} [NoFault; NoFault; NoFault; Fail 500].

Definition startFails : World :=
  world {["app:latest" := "sha:BBB"]}
        [NoFault; NoFault; NoFault; NoFault; Fail 500].

Definition removalFails : World :=
  world {["app:latest" := "sha:BBB"]}
        [NoFault; NoFault; NoFault; NoFault; NoFault; Fail 500].

(** A fault schedule for one pass; the calls are, in order: list; inspect,
    pull, follow, image inspect (detection); inspect, rename, create and the
    rollback rename (replacement). *)
Definition rollbackFails : World :=
  world cached [NoFault; NoFault; NoFault; NoFault; NoFault;
                NoFault; NoFault; Fail 500; Fail 503].

(** Three running containers, listed in the order [db], [web], [kv]; only
    [web] has drifted. *)
Definition db : container :=
  Container 1 "db" "pg:15" "sha:DB1" ∅ (JObj []) (JObj []) (JArr []) true.

Definition kv : container :=
  Container 2 "kv" "redis:7" "sha:KV1" ∅ (JObj []) (JObj []) (JArr []) true.

Definition fleet : World :=
  MkWorld [db; web; kv]
    {["pg:15" := "sha:DB1"; "app:latest" := "sha:AAA"; "redis:7" := "sha:KV1"]}
    {["pg:15" := "sha:DB1"; "app:latest" := "sha:BBB"; "redis:7" := "sha:KV2"]}
    3 [].

End Scenario.

(** * Properties *)

Import Engine Async Updater Scenario.

(** ** Facts about the engine *)

Section EngineFacts.

Lemma guarded_inv {A} (body : call A) w r w1 :
  guarded body w = (r, w1) →
  (∃ s, r = Throw (EngineError s) ∧ w1 = dropFault w)
  ∨ body (dropFault w) = (r, w1).
Proof.
  unfold guarded. destruct (nextFault w); [by right|].
  intros [= <- <-]. left. eauto.
Qed.

Lemma inspect_ok h w d w1 :
  inspect h w = (Ok d, w1) →
  w1 = dropFault w
  ∧ ∃ c, lookupC h (containers w) = Some c ∧ d = inspectData c.
Proof.
  intros [(s & [=] & _)|H]%guarded_inv. simpl in H.
  destruct (lookupC h (containers w)) as [c|]; [|done].
  injection H as <- <-. eauto.
Qed.

Lemma rename_ok h n w w1 :
  rename h n w = (Ok (), w1) →
  is_Some (lookupC h (containers w))
  ∧ lookupC (ByName n) (containers w) = None
  ∧ w1 = setContainers (updateC h (withName n) (containers w)) (dropFault w).
Proof.
  intros [(s & [=] & _)|H]%guarded_inv. simpl in H.
  destruct (lookupC h (containers w)) as [c|]; [|done].
  destruct (lookupC (ByName n) (containers w)); [done|].
  injection H as <-. eauto.
Qed.

Lemma rename_taken h n w r w1 :
  is_Some (lookupC (ByName n) (containers w)) →
  rename h n w = (r, w1) →
  (∃ e, r = Throw e) ∧ w1 = dropFault w.
Proof.
  intros [c Hc] [(s & -> & ->)|H]%guarded_inv; [eauto|]. simpl in H.
  rewrite Hc in H.
  destruct (lookupC h (containers w)); injection H as <- <-; eauto.
Qed.

Lemma createContainer_ok payload w h w1 :
  createContainer payload w = (Ok h, w1) →
  ∃ n ref iid c,
    payload !! "name" = Some (JStr n)
    ∧ payload !! "Image" = Some (JStr ref)
    ∧ lookupC (ByName n) (containers w) = None
    ∧ images w !! ref = Some iid
    ∧ cId c = nextId w ∧ cName c = n ∧ cImage c = ref ∧ cImageId c = iid
    ∧ cRunning c = false
    ∧ h = ById (nextId w)
    ∧ containers w1 = containers w ++ [c]
    ∧ images w1 = images w.
Proof.
  intros [(s & [=] & _)|H]%guarded_inv. simpl in H.
  destruct (payload !! "name") as [[| | |n| |]|]; try done.
  destruct (payload !! "Image") as [[| | |ref| |]|]; try done.
  destruct (lookupC (ByName n) (containers w)) eqn:Hfree; [done|].
  destruct (images w !! ref) as [iid|] eqn:Himg; [|done].
  injection H as <- <-.
  eexists n, ref, iid, _. repeat split; try done.
Qed.

Lemma start_ok h w w1 :
  start h w = (Ok (), w1) →
  w1 = setContainers (updateC h (withRunning true) (containers w)) (dropFault w).
Proof.
  intros [(s & [=] & _)|H]%guarded_inv. simpl in H.
  destruct (lookupC h (containers w)); [|done]. by injection H as <-.
Qed.

Lemma stop_ok h w w1 :
  stop h w = (Ok (), w1) →
  w1 = setContainers (updateC h (withRunning false) (containers w)) (dropFault w).
Proof.
  intros [(s & [=] & _)|H]%guarded_inv. simpl in H.
  destruct (lookupC h (containers w)); [|done]. by injection H as <-.
Qed.

Lemma remove_ok h w w1 :
  remove h w = (Ok (), w1) →
  w1 = setContainers (removeC h (containers w)) (dropFault w).
Proof.
  intros [(s & [=] & _)|H]%guarded_inv. simpl in H.
  destruct (lookupC h (containers w)); [|done]. by injection H as <-.
Qed.

(** A call that answers with an error leaves the engine as it was. *)
Lemma createContainer_failed payload w e w1 :
  createContainer payload w = (Throw e, w1) → w1 = dropFault w.
Proof.
  intros [(s & _ & ->)|H]%guarded_inv; [done|]. simpl in H.
  repeat case_match; by simplify_eq.
Qed.

Lemma start_failed h w e w1 : start h w = (Throw e, w1) → w1 = dropFault w.
Proof.
  intros [(s & _ & ->)|H]%guarded_inv; [done|]. simpl in H.
  destruct (lookupC h (containers w)); [done|]. by injection H as _ <-.
Qed.

Lemma remove_failed h w e w1 : remove h w = (Throw e, w1) → w1 = dropFault w.
Proof.
  intros [(s & _ & ->)|H]%guarded_inv; [done|]. simpl in H.
  destruct (lookupC h (containers w)); [done|]. by injection H as _ <-.
Qed.

(** Names held after an update of the container list. *)
Lemma named_rename_away n m cs :
  n ≠ m →
  filter (λ c, cName c = n) (updateC (ByName n) (withName m) cs) = [].
Proof.
  intros Hnm. unfold updateC. induction cs as [|c cs IH]; [done|].
  rewrite fmap_cons, filter_cons, IH. simpl.
  destruct (decide (cName c = n)); simpl; rewrite decide_False; congruence.
Qed.

Lemma named_update_running n h b cs :
  filter (λ c, cName c = n) (updateC h (withRunning b) cs)
  = updateC h (withRunning b) (filter (λ c, cName c = n) cs).
Proof.
  unfold updateC. induction cs as [|c cs IH]; [done|].
  rewrite fmap_cons, !filter_cons, IH.
  destruct (decide (refersTo h c)); simpl;
    destruct (decide (cName c = n)); simpl; try done.
  - by rewrite decide_True.
  - by rewrite decide_False.
Qed.

Lemma named_remove_other n m cs :
  n ≠ m →
  filter (λ c, cName c = n) (removeC (ByName m) cs)
  = filter (λ c, cName c = n) cs.
Proof.
  intros Hnm. unfold removeC. induction cs as [|c cs IH]; [done|].
  rewrite !filter_cons.
  destruct (decide (¬ refersTo (ByName m) c)) as [Hc|Hc];
    rewrite ?filter_cons, IH; [done|].
  apply dec_stable in Hc. simpl in Hc. rewrite decide_False; congruence.
Qed.

Lemma named_remove_same n cs :
  filter (λ c, cName c = n) (removeC (ByName n) cs) = [].
Proof.
  unfold removeC. induction cs as [|c cs IH]; [done|].
  rewrite filter_cons.
  destruct (decide (¬ refersTo (ByName n) c)) as [Hc|Hc]; [|done].
  rewrite filter_cons, IH. by rewrite decide_False.
Qed.

Lemma temp_name_fresh (s : string) : s ≠ s +:+ "-old-temp".
Proof.
  induction s as [|a s IH]; intros H; [discriminate H|].
  injection H as H. by apply IH.
Qed.

Lemma lookupC_named n w : lookupC (ByName n) (containers w) = head (named n w).
Proof. reflexivity. Qed.

Lemma named_rename_to n m cs :
  n ≠ m →
  filter (λ c, cName c = m) cs = [] →
  filter (λ c, cName c = m) (updateC (ByName n) (withName m) cs)
  = withName m <$> filter (λ c, cName c = n) cs.
Proof.
  intros Hnm. unfold updateC. induction cs as [|c cs IH]; [done|].
  rewrite fmap_cons, !filter_cons.
  destruct (decide (cName c = m)) as [Hm|Hm]; [done|]. intros Hnone.
  rewrite IH by done.
  destruct (decide (refersTo (ByName n) c)) as [Hn|Hn]; simpl in Hn.
  - rewrite decide_True by done. by rewrite decide_True by done.
  - rewrite decide_False by done. by rewrite decide_False by done.
Qed.

Lemma ids_update_running h b cs :
  cId <$> updateC h (withRunning b) cs = cId <$> cs.
Proof.
  unfold updateC. rewrite <- list_fmap_compose. apply list_fmap_ext.
  intros i c _. simpl. by case_decide.
Qed.


Lemma imageInspect_missing ref w :
  images w !! ref = None →
  ∃ e, imageInspect ref w = (Throw e, dropFault w).
Proof.
  intros Hnone. unfold imageInspect, guarded.
  destruct (nextFault w); [|eauto].
  simpl. rewrite Hnone. eauto.
Qed.

Lemma listContainers_ok w cs w1 :
  listContainers w = (Ok cs, w1) →
  w1 = dropFault w
  ∧ cs = summary <$> filter (λ c, cRunning c = true) (containers w).
Proof.
  intros [(s & [=] & _)|H]%guarded_inv. simpl in H. by injection H as <- <-.
Qed.

Lemma guarded_containers {A} (body : call A) :
  (∀ w r w1, body w = (r, w1) → containers w1 = containers w) →
  ∀ w r w1, guarded body w = (r, w1) → containers w1 = containers w.
Proof.
  intros Hbody w r w1 [(s & _ & ->)|H]%guarded_inv; [done|].
  by apply Hbody in H.
Qed.

Lemma inspect_containers h w r w1 :
  inspect h w = (r, w1) → containers w1 = containers w.
Proof.
  apply guarded_containers. intros w0 r0 w2.
  destruct (lookupC h (containers w0)); by intros [= <- <-].
Qed.

Lemma pull_containers ref w r w1 :
  pull ref w = (r, w1) → containers w1 = containers w.
Proof.
  apply guarded_containers. intros w0 r0 w2.
  destruct (registry w0 !! ref); by intros [= <- <-].
Qed.

Lemma followProgress_containers ref rid w r w1 :
  followProgress ref rid w = (r, w1) → containers w1 = containers w.
Proof.
  apply guarded_containers. intros w0 r0 w2. by intros [= <- <-].
Qed.

Lemma imageInspect_containers ref w r w1 :
  imageInspect ref w = (r, w1) → containers w1 = containers w.
Proof.
  apply guarded_containers. intros w0 r0 w2.
  destruct (images w0 !! ref); by intros [= <- <-].
Qed.

Lemma firstName_summary c : firstName (summary c) = mret (cName c).
Proof. reflexivity. Qed.

Lemma dropFault_nofault w : faults w = [] → dropFault w = w.
Proof. destruct w as [cs im rg n fs]. simpl. by intros ->. Qed.

Lemma guarded_nofault {A} (body : call A) w :
  faults w = [] → guarded body w = body w.
Proof.
  intros Hf. unfold guarded, nextFault. rewrite Hf. simpl.
  by rewrite dropFault_nofault.
Qed.

Lemma inspect_nofault h w :
  faults w = [] →
  inspect h w =
    match lookupC h (containers w) with
    | Some c => (Ok (inspectData c), w)
    | None => (Throw (EngineError 404), w)
    end.
Proof. apply guarded_nofault. Qed.

Lemma pull_nofault ref w :
  faults w = [] →
  pull ref w =
    match registry w !! ref with
    | Some rid => (Ok rid, w)
    | None => (Throw (EngineError 404), w)
    end.
Proof. apply guarded_nofault. Qed.

Lemma followProgress_nofault ref rid w :
  faults w = [] →
  ∃ out, followProgress ref rid w
         = (Ok out, setImages (<[ref := rid]> (images w)) w).
Proof. intros Hf. unfold followProgress. rewrite guarded_nofault by done. eauto. Qed.

Lemma imageInspect_nofault ref w :
  faults w = [] →
  imageInspect ref w =
    match images w !! ref with
    | Some iid => (Ok (MkImage iid), w)
    | None => (Throw (EngineError 404), w)
    end.
Proof. apply guarded_nofault. Qed.

Lemma inspect_missing h w :
  lookupC h (containers w) = None →
  ∃ e, inspect h w = (Throw e, dropFault w).
Proof.
  intros Hnone. unfold inspect, guarded.
  destruct (nextFault w); [|eauto]. simpl. rewrite Hnone. eauto.
Qed.

Lemma rename_missing h n w :
  lookupC h (containers w) = None →
  ∃ e, rename h n w = (Throw e, dropFault w).
Proof.
  intros Hnone. unfold rename, guarded.
  destruct (nextFault w); [|eauto]. simpl. rewrite Hnone. eauto.
Qed.

Lemma rename_failed h n w e w1 :
  rename h n w = (Throw e, w1) → w1 = dropFault w.
Proof.
  intros [(s & _ & ->)|H]%guarded_inv; [done|]. simpl in H.
  repeat case_match; by simplify_eq.
Qed.

Lemma stop_failed h w e w1 : stop h w = (Throw e, w1) → w1 = dropFault w.
Proof.
  intros [(s & _ & ->)|H]%guarded_inv; [done|]. simpl in H.
  repeat case_match; by simplify_eq.
Qed.

Lemma inspect_failed h w e w1 : inspect h w = (Throw e, w1) → w1 = dropFault w.
Proof.
  intros [(s & _ & ->)|H]%guarded_inv; [done|]. simpl in H.
  repeat case_match; by simplify_eq.
Qed.

(** The ids of the containers are kept by a rename and by a change of the
    running flag. *)
Lemma ids_rename h n cs : cId <$> updateC h (withName n) cs = cId <$> cs.
Proof.
  unfold updateC. rewrite <- list_fmap_compose. apply list_fmap_ext.
  intros i c _. simpl. by case_decide.
Qed.

(** Containers outside a set of names are not affected by an update or a
    removal that addresses a name of the set. *)
Lemma filter_updateC_untouched (P : container → Prop) `{∀ c, Decision (P c)}
    h f cs :
  (∀ c, c ∈ cs → refersTo h c → ¬ P c ∧ ¬ P (f c)) →
  filter P (updateC h f cs) = filter P cs.
Proof.
  unfold updateC. induction cs as [|c cs IH]; intros Hout; [done|].
  rewrite fmap_cons, !filter_cons.
  rewrite IH by (intros c' Hc'; apply Hout; by right).
  destruct (decide (refersTo h c)) as [Hh|Hh]; [|done].
  destruct (Hout c) as [Hc Hfc]; [by left|done|].
  by rewrite !decide_False.
Qed.

Lemma filter_removeC_untouched (P : container → Prop) `{∀ c, Decision (P c)}
    h cs :
  (∀ c, c ∈ cs → refersTo h c → ¬ P c) →
  filter P (removeC h cs) = filter P cs.
Proof.
  unfold removeC. induction cs as [|c cs IH]; intros Hout; [done|].
  rewrite !filter_cons.
  specialize (IH (λ c' Hc', Hout c' (list_elem_of_further _ _ _ Hc'))).
  destruct (decide (¬ refersTo h c)) as [Hh|Hh].
  - by rewrite filter_cons, IH.
  - rewrite IH. apply dec_stable in Hh.
    rewrite decide_False; [done|]. apply Hout; [by left|done].
Qed.

(** No call but a successful removal makes a container disappear: the ids
    present before are a prefix of the ids present after. *)
Lemma ids_updateC h f cs :
  (∀ c, cId (f c) = cId c) → cId <$> updateC h f cs = cId <$> cs.
Proof.
  intros Hf. unfold updateC. rewrite <- list_fmap_compose.
  apply list_fmap_ext. intros i c _. simpl. by case_decide.
Qed.

Lemma inspect_ids h w r w1 :
  inspect h w = (r, w1) →
  (cId <$> containers w) `prefix_of` (cId <$> containers w1).
Proof. intros ->%inspect_containers. done. Qed.

Lemma rename_ids h n w r w1 :
  rename h n w = (r, w1) →
  (cId <$> containers w) `prefix_of` (cId <$> containers w1).
Proof.
  intros [(s & _ & ->)|H]%guarded_inv; [done|]. simpl in H.
  repeat case_match; simplify_eq; simpl; rewrite ?ids_updateC by done; done.
Qed.

Lemma stop_ids h w r w1 :
  stop h w = (r, w1) →
  (cId <$> containers w) `prefix_of` (cId <$> containers w1).
Proof.
  intros [(s & _ & ->)|H]%guarded_inv; [done|]. simpl in H.
  repeat case_match; simplify_eq; simpl; rewrite ?ids_updateC by done; done.
Qed.

Lemma start_ids h w r w1 :
  start h w = (r, w1) →
  (cId <$> containers w) `prefix_of` (cId <$> containers w1).
Proof.
  intros [(s & _ & ->)|H]%guarded_inv; [done|]. simpl in H.
  repeat case_match; simplify_eq; simpl; rewrite ?ids_updateC by done; done.
Qed.

Lemma createContainer_ids payload w r w1 :
  createContainer payload w = (r, w1) →
  (cId <$> containers w) `prefix_of` (cId <$> containers w1).
Proof.
  intros [(s & _ & ->)|H]%guarded_inv; [done|]. simpl in H.
  repeat case_match; simplify_eq; simpl; try done.
  rewrite fmap_app. by apply prefix_app_r.
Qed.

Lemma remove_failed_ids h w e w1 :
  remove h w = (Throw e, w1) →
  (cId <$> containers w) `prefix_of` (cId <$> containers w1).
Proof. by intros ->%remove_failed. Qed.

(** The counter of ids moves only when a container is created. *)
Lemma inspect_nextId h w r w1 : inspect h w = (r, w1) → nextId w1 = nextId w.
Proof.
  intros [(s & _ & ->)|H]%guarded_inv; [done|]. simpl in H.
  repeat case_match; by simplify_eq.
Qed.

Lemma rename_nextId h n w r w1 : rename h n w = (r, w1) → nextId w1 = nextId w.
Proof.
  intros [(s & _ & ->)|H]%guarded_inv; [done|]. simpl in H.
  repeat case_match; by simplify_eq.
Qed.

(** The containers under other names are out of the reach of the calls a
    replacement makes. *)
Ltac out_of_reach :=
  let go := (intros [? ?];
             repeat match goal with H : _ ∨ _ |- _ => destruct H end;
             congruence) in
  first [split; go | go].

Lemma inspect_others target h w r w1 :
  inspect h w = (r, w1) → others target (containers w1) = others target (containers w).
Proof. by intros ->%inspect_containers. Qed.

Lemma rename_others target a b w r w1 :
  a = target ∨ a = target +:+ "-old-temp" →
  b = target ∨ b = target +:+ "-old-temp" →
  rename (ByName a) b w = (r, w1) →
  others target (containers w1) = others target (containers w).
Proof.
  intros Ha Hb [(s & _ & ->)|H]%guarded_inv; [done|]. simpl in H.
  repeat case_match; simplify_eq; simpl; try done.
  apply filter_updateC_untouched. intros c0 _ Hc0. simpl in *. out_of_reach.
Qed.

Lemma stop_others target w r w1 :
  stop (ByName (target +:+ "-old-temp")) w = (r, w1) →
  others target (containers w1) = others target (containers w).
Proof.
  intros [(s & _ & ->)|H]%guarded_inv; [done|]. simpl in H.
  repeat case_match; simplify_eq; simpl; try done.
  apply filter_updateC_untouched. intros c0 _ Hc0. simpl in *. out_of_reach.
Qed.

Lemma remove_others target w r w1 :
  remove (ByName (target +:+ "-old-temp")) w = (r, w1) →
  others target (containers w1) = others target (containers w).
Proof.
  intros [(s & _ & ->)|H]%guarded_inv; [done|]. simpl in H.
  repeat case_match; simplify_eq; simpl; try done.
  apply filter_removeC_untouched. intros c0 _ Hc0. simpl in *. out_of_reach.
Qed.

Lemma createContainer_others target payload w r w1 :
  payload !! "name" = Some (JStr target) →
  createContainer payload w = (r, w1) →
  others target (containers w1) = others target (containers w).
Proof.
  intros Hname [(s & _ & ->)|H]%guarded_inv; [done|]. simpl in H.
  rewrite Hname in H.
  repeat case_match; simplify_eq; simpl; try done.
  unfold others. rewrite filter_app, filter_cons, filter_nil.
  rewrite decide_False by (simpl; out_of_reach). by rewrite app_nil_r.
Qed.

Lemma start_others target i w r w1 :
  (∀ c, c ∈ others target (containers w) → cId c ≠ i) →
  start (ById i) w = (r, w1) →
  others target (containers w1) = others target (containers w).
Proof.
  intros Hid [(s & _ & ->)|H]%guarded_inv; [done|]. simpl in H.
  repeat case_match; simplify_eq; simpl; try done.
  apply filter_updateC_untouched. intros c0 Hin Hc0. simpl in *.
  assert (Hnot : ¬ (cName c0 ≠ target ∧ cName c0 ≠ target +:+ "-old-temp")).
  { intros HP. apply (Hid c0); [|done]. unfold others.
    by apply list_elem_of_filter. }
  done.
Qed.

Lemma listContainers_containers w r w1 :
  listContainers w = (r, w1) → containers w1 = containers w.
Proof. apply guarded_containers. intros w0 r0 w2. by intros [= <- <-]. Qed.

(** Calls on an engine that has no fault scheduled. *)
Lemma rename_nofault h n w :
  faults w = [] →
  is_Some (lookupC h (containers w)) →
  lookupC (ByName n) (containers w) = None →
  rename h n w
  = (Ok (), setContainers (updateC h (withName n) (containers w)) w).
Proof.
  intros Hf [c Hc] Hfree. unfold rename. rewrite guarded_nofault by done.
  by rewrite Hc, Hfree.
Qed.

Lemma stop_nofault h w :
  faults w = [] →
  is_Some (lookupC h (containers w)) →
  stop h w
  = (Ok (), setContainers (updateC h (withRunning false) (containers w)) w).
Proof.
  intros Hf [c Hc]. unfold stop. rewrite guarded_nofault by done.
  by rewrite Hc.
Qed.

Lemma start_nofault h w :
  faults w = [] →
  is_Some (lookupC h (containers w)) →
  start h w
  = (Ok (), setContainers (updateC h (withRunning true) (containers w)) w).
Proof.
  intros Hf [c Hc]. unfold start. rewrite guarded_nofault by done.
  by rewrite Hc.
Qed.

Lemma remove_nofault h w :
  faults w = [] →
  is_Some (lookupC h (containers w)) →
  remove h w = (Ok (), setContainers (removeC h (containers w)) w).
Proof.
  intros Hf [c Hc]. unfold remove. rewrite guarded_nofault by done.
  by rewrite Hc.
Qed.

Lemma createContainer_nofault payload n ref iid w :
  faults w = [] →
  payload !! "name" = Some (JStr n) →
  payload !! "Image" = Some (JStr ref) →
  lookupC (ByName n) (containers w) = None →
  images w !! ref = Some iid →
  ∃ w1,
    createContainer payload w = (Ok (ById (nextId w)), w1)
    ∧ faults w1 = [] ∧ images w1 = images w ∧ registry w1 = registry w.
Proof.
  intros Hf Hn Hr Hfree Himg. unfold createContainer.
  rewrite guarded_nofault by done. rewrite Hn, Hr, Hfree, Himg.
  eexists. split; [done|]. by simpl.
Qed.

Lemma lookupC_is_Some h c cs :
  c ∈ cs → refersTo h c → is_Some (lookupC h cs).
Proof.
  intros Hin Hc. unfold lookupC.
  destruct (filter (refersTo h) cs) as [|c' l] eqn:Hfil; [|by eexists].
  assert (c ∈ filter (refersTo h) cs) as Hc' by by apply list_elem_of_filter.
  rewrite Hfil in Hc'. by apply elem_of_nil in Hc'.
Qed.

Lemma named_is_Some n w :
  named n w ≠ [] → is_Some (lookupC (ByName n) (containers w)).
Proof.
  rewrite lookupC_named. destruct (named n w); [done|]. by eexists.
Qed.

End EngineFacts.

#[local] Opaque inspect rename start stop remove createContainer pull
  followProgress imageInspect listContainers.

(** Membership of an event in an explicit trace, proved by position. *)
Ltac trace_in :=
  repeat first [apply list_elem_of_here | apply list_elem_of_further].

Ltac case_if :=
  match goal with |- context [if ?b then _ else _] => destruct b end.

(** Membership of an event in an explicit trace. *)
Ltac trace_inv H :=
  repeat (apply elem_of_cons in H as [H|H]; [try discriminate H|]);
  try (apply elem_of_nil in H; contradiction).

Ltac unfold_async :=
  unfold tryCatch, callback, mbind, M_bind, bind, await, fire, mret, M_ret,
    ret, throw.

(** ** Drift detection *)

Section Detection.

Ltac run := unfold checkIfImageNeedsUpdate, getRemoteImageId; unfold_async.

(** Detection never rejects: it always resolves to a boolean. *)
Lemma checkIfImageNeedsUpdate_total name w :
  ∃ b w' tr, checkIfImageNeedsUpdate name w = (Ok b, w', tr).
Proof.
  run.
  destruct (inspect (ByName name) w) as [[d|e] w1]; simpl; [|eauto].
  destruct (pull _ w1) as [[rid|e] w2]; simpl.
  - destruct (followProgress _ _ w2) as [[out|e] w3]; simpl; [|eauto].
    destruct (imageInspect _ w3) as [[img|e] w4]; simpl; [|eauto].
    case_if; simpl; eauto.
  - repeat case_decide; simpl; eauto.
    all: destruct (imageInspect _ w2) as [[img|e'] w4]; simpl; [|eauto].
    all: case_if; simpl; eauto.
Qed.

(** C6 (amended).  When the container inspect fails, detection answers
    drift ([true]).  When the local image inspect fails, the inner handler
    reads the failure as "no local image" and detection answers no-update
    ([false]). *)
Theorem drift_on_inspect_failure name w r w' tr :
  checkIfImageNeedsUpdate name w = (r, w', tr) →
  (Awaited (CInspect (ByName name)) false ∈ tr → r = Ok true) ∧
  (∀ ref, Awaited (CImageInspect ref) false ∈ tr → r = Ok false).
Proof.
  run.
  destruct (inspect (ByName name) w) as [[d|e] w1]; simpl.
  2:{ intros [= <- <- <-]. split; [done|]. intros ref Hin. trace_inv Hin. }
  destruct (pull _ w1) as [[rid|e] w2]; simpl.
  - destruct (followProgress _ _ w2) as [[out|e] w3]; simpl.
    2:{ intros [= <- <- <-]. split; [intros Hin|intros ref Hin]; trace_inv Hin. }
    destruct (imageInspect _ w3) as [[img|e] w4]; simpl.
    + case_if; simpl; intros [= <- <- <-];
        (split; [intros Hin|intros ref Hin]; trace_inv Hin).
    + intros [= <- <- <-]. split; [intros Hin|intros ref Hin]; trace_inv Hin. done.
  - repeat case_decide; simpl.
    3:{ intros [= <- <- <-]. split; [intros Hin|intros ref Hin]; trace_inv Hin. }
    all: destruct (imageInspect _ w2) as [[img|e'] w4]; simpl;
      [case_if; simpl|]; intros [= <- <- <-];
      (split; [intros Hin|intros ref Hin]; trace_inv Hin); done.
Qed.

Lemma drift_on_inspect_failure_witness :
  (checkIfImageNeedsUpdate "web"
     (Scenario.world Scenario.cached [Fail 500])).1.1 = Ok true
  ∧ (checkIfImageNeedsUpdate "web"
       (Scenario.world Scenario.cached [NoFault; NoFault; NoFault; Fail 500])).1.1
    = Ok false.
Proof.
  split.
  - destruct (checkIfImageNeedsUpdate "web" _) as [[r w'] tr] eqn:E. simpl.
    apply (proj1 (drift_on_inspect_failure _ _ _ _ _ E)).
    vm_compute in E. injection E as <- <- <-. apply list_elem_of_further, list_elem_of_here.
  - destruct (checkIfImageNeedsUpdate "web" _) as [[r w'] tr] eqn:E. simpl.
    apply (proj2 (drift_on_inspect_failure _ _ _ _ _ E) "app:latest").
    vm_compute in E. injection E as <- <- <-.
    do 7 apply list_elem_of_further. apply list_elem_of_here.
Defined.

(** C6 (as stated) fails: with the container inspect and the pull
    succeeding and the local image inspect answering 500, an engine call that
    fetches the image state has failed, yet detection answers [false]. *)
Lemma drift_on_any_inspect_failure_counterexample :
  ¬ (∀ name w r w' tr c,
       checkIfImageNeedsUpdate name w = (r, w', tr) →
       c = CInspect (ByName name) ∨ (∃ ref, c = CImageInspect ref) →
       Awaited c false ∈ tr →
       r = Ok true).
Proof.
  intros claim.
  specialize (claim "web"
    (Scenario.world Scenario.cached [NoFault; NoFault; NoFault; Fail 500])
    (Ok false) _ _ (CImageInspect "app:latest") eq_refl).
  discriminate claim.
  - right. by exists "app:latest".
  - vm_compute. do 7 apply list_elem_of_further. apply list_elem_of_here.
Qed.

(** C7 (amended).  When the container inspect succeeds, the pull sub-step
    resolves (it completes, or fails with 401 or 404) and the reference has
    no image in the local cache afterwards, detection answers no-update
    ([false]). *)
Theorem no_update_without_local_image name w d w1 rid w2 t2 :
  inspect (ByName name) w = (Ok d, w1) →
  getRemoteImageId (cfgImage (Config d)) w1 = (Ok rid, w2, t2) →
  images w2 !! cfgImage (Config d) = None →
  ∃ tr, checkIfImageNeedsUpdate name w = (Ok false, dropFault w2, tr).
Proof.
  intros Hinspect Hpull Hnone.
  destruct (imageInspect_missing _ _ Hnone) as [e Himg].
  unfold checkIfImageNeedsUpdate. unfold_async.
  rewrite Hinspect. simpl. rewrite Hpull. rewrite Himg. simpl. eauto.
Qed.

Lemma no_update_without_local_image_witness :
  ∃ tr, checkIfImageNeedsUpdate "web" (Scenario.world ∅ [NoFault; Fail 404])
        = (Ok false, dropFault (Scenario.world ∅ []), tr).
Proof.
  eapply (no_update_without_local_image "web"
            (Scenario.world ∅ [NoFault; Fail 404])).
  - vm_compute. reflexivity.
  - vm_compute. reflexivity.
  - vm_compute. reflexivity.
Defined.

(** C7 (as stated) fails: the container inspect succeeds and the cache holds
    no image for the reference after the pull attempt, but the pull was
    answered with 500, so detection answers [true]. *)
Lemma no_update_without_local_image_counterexample :
  ¬ (∀ name w d w1 r w' tr,
       inspect (ByName name) w = (Ok d, w1) →
       checkIfImageNeedsUpdate name w = (r, w', tr) →
       images w' !! cfgImage (Config d) = None →
       r = Ok false).
Proof.
  intros claim.
  assert (H : Ok true = Ok false); [|discriminate H].
  eapply (claim "web" (Scenario.world ∅ [NoFault; Fail 500])).
  - vm_compute. reflexivity.
  - vm_compute. reflexivity.
  - vm_compute. reflexivity.
Qed.

(** C8 (amended).  A pull answered with an error other than 401 and 404
    rejects [getRemoteImageId]; the rejection is caught by the handler of
    detection, which answers drift ([true]) at once: the local image is not
    inspected. *)
Theorem hard_pull_failure_is_drift name w d w1 e w2 :
  inspect (ByName name) w = (Ok d, w1) →
  pull (cfgImage (Config d)) w1 = (Throw e, w2) →
  statusCode e ≠ Some 401 →
  statusCode e ≠ Some 404 →
  checkIfImageNeedsUpdate name w =
    (Ok true, w2,
     [Issued (CInspect (ByName name)); Awaited (CInspect (ByName name)) true;
      Issued (CPull (cfgImage (Config d)));
      Awaited (CPull (cfgImage (Config d))) false]).
Proof.
  intros Hinspect Hpull H401 H404. run.
  rewrite Hinspect. simpl. rewrite Hpull. simpl.
  rewrite !decide_False by done. reflexivity.
Qed.

Lemma hard_pull_failure_is_drift_witness :
  checkIfImageNeedsUpdate "web"
    (Scenario.world Scenario.cached [NoFault; Fail 500]) =
  (Ok true, Scenario.world Scenario.cached [],
   [Issued (CInspect (ByName "web")); Awaited (CInspect (ByName "web")) true;
    Issued (CPull "app:latest"); Awaited (CPull "app:latest") false]).
Proof.
  apply (hard_pull_failure_is_drift "web"
           (Scenario.world Scenario.cached [NoFault; Fail 500])
           (inspectData Scenario.web)
           (Scenario.world Scenario.cached [Fail 500])
           (EngineError 500)).
  - vm_compute. reflexivity.
  - vm_compute. reflexivity.
  - vm_compute. discriminate.
  - vm_compute. discriminate.
Defined.

(** C8 (as stated) fails: after a pull answered with 500 no local-image
    comparison takes place, and detection answers drift although no inspect
    call has failed. *)
Lemma hard_pull_failure_swallowed_counterexample :
  ¬ (∀ name w d w1 e w2 r w' tr,
       inspect (ByName name) w = (Ok d, w1) →
       pull (cfgImage (Config d)) w1 = (Throw e, w2) →
       statusCode e ≠ Some 401 →
       statusCode e ≠ Some 404 →
       checkIfImageNeedsUpdate name w = (r, w', tr) →
       Issued (CImageInspect (cfgImage (Config d))) ∈ tr
       ∧ (r = Ok true →
          Awaited (CInspect (ByName name)) false ∈ tr
          ∨ Awaited (CImageInspect (cfgImage (Config d))) false ∈ tr)).
Proof.
  intros claim.
  destruct (claim "web" (Scenario.world Scenario.cached [NoFault; Fail 500])
              (inspectData Scenario.web)
              (Scenario.world Scenario.cached [Fail 500])
              (EngineError 500)
              (Scenario.world Scenario.cached [])
              (Ok true)
              (Scenario.world Scenario.cached [])
              [Issued (CInspect (ByName "web")); Awaited (CInspect (ByName "web")) true;
               Issued (CPull "app:latest"); Awaited (CPull "app:latest") false])
    as [Hin _].
  - vm_compute. reflexivity.
  - vm_compute. reflexivity.
  - vm_compute. discriminate.
  - vm_compute. discriminate.
  - vm_compute. reflexivity.
  - trace_inv Hin.
Qed.

End Detection.

(** ** Replacement *)

Section Replacement.

Lemma containerManagement_rename n ctx :
  containerManagement n "rename" ctx
  = await (CRename (ByName n) ctx) (rename (ByName n) ctx).
Proof. reflexivity. Qed.

Lemma containerManagement_stop n ctx :
  containerManagement n "stop" ctx = await (CStop (ByName n)) (stop (ByName n)).
Proof. reflexivity. Qed.

Lemma containerManagement_remove n ctx :
  containerManagement n "remove" ctx
  = await (CRemove (ByName n)) (remove (ByName n)).
Proof. reflexivity. Qed.

Ltac run_updateImage target w :=
  unfold updateImage;
  rewrite !containerManagement_rename, containerManagement_stop,
    containerManagement_remove;
  unfold_async;
  destruct (inspect (ByName target) w) as [[d|e1] w1] eqn:Hinspect; simpl;
  [ destruct (rename (ByName target) (target +:+ "-old-temp") w1)
      as [[[]|e2] w2] eqn:Hrename; simpl;
    [ destruct (createContainer _ w2) as [[newC|e3] w3] eqn:Hcreate; simpl;
      [ destruct (stop _ w3) as [[[]|e4] w4] eqn:Hstop; simpl;
        [ destruct (start newC w4) as [[[]|e5] w5] eqn:Hstart; simpl;
          (destruct (remove _ w5) as [[[]|e6] w6] eqn:Hremove; simpl;
           [ | destruct (rename _ target w6) as [rb w7] eqn:Hrollback; simpl ])
        | destruct (rename _ target w4) as [rb w7] eqn:Hrollback; simpl ]
      | destruct (rename _ target w3) as [rb w7] eqn:Hrollback; simpl ]
    | destruct (rename _ target w2) as [rb w7] eqn:Hrollback; simpl ]
  | ].

Lemma payload_contents info d target :
  let p := createContainerPayload info d target in
  p !! "name" = Some (JStr target)
  ∧ p !! "Image" = Some (JStr (cfgImage (Config d)))
  ∧ p !! "HostConfig" = Some (JObj [("PortBindings", Ports (NetworkSettings d))])
  ∧ ∀ k, k ≠ "name" → k ≠ "Image" → k ≠ "HostConfig" →
         p !! k = (cfgRest (Config d) ∪ info) !! k.
Proof.
  unfold createContainerPayload, spreadConfig. simpl.
  repeat split.
  - rewrite lookup_insert_ne by done. by rewrite lookup_insert_eq.
  - rewrite !lookup_insert_ne by done. by rewrite lookup_insert_eq.
  - by rewrite lookup_insert_eq.
  - intros k Hname Himage Hhost.
    rewrite !lookup_insert_ne by done.
    rewrite !lookup_union, lookup_insert_ne by done. done.
Qed.

(** The engine after the first five steps of a replacement have succeeded:
    the new container alone holds the target name, and the containers that
    held it before are kept under the temporary name. *)
Lemma steps_1_to_5 info target w d w1 w2 newC w3 w4 w5 :
  inspect (ByName target) w = (Ok d, w1) →
  rename (ByName target) (target +:+ "-old-temp") w1 = (Ok (), w2) →
  createContainer (createContainerPayload info d target) w2 = (Ok newC, w3) →
  stop (ByName (target +:+ "-old-temp")) w3 = (Ok (), w4) →
  start newC w4 = (Ok (), w5) →
  ∃ old new,
    lookupC (ByName target) (containers w) = Some old
    ∧ named target w5 = [new]
    ∧ cId <$> named (target +:+ "-old-temp") w5 = cId <$> named target w
    ∧ cId new = nextId w
    ∧ cImage new = cImage old
    ∧ images w !! cImage old = Some (cImageId new).
Proof.
  intros Hinspect Hrename Hcreate Hstop Hstart.
  apply inspect_ok in Hinspect as (-> & old & Hold & ->).
  apply rename_ok in Hrename as (_ & Hfree & ->).
  apply createContainer_ok in Hcreate
    as (n & ref & iid & c & Hn & Hr & _ & Hiid & Hid & Hcn & Hcr & Hci & _ & -> & Hcs & _).
  apply stop_ok in Hstop as ->. apply start_ok in Hstart as ->.
  destruct (payload_contents info (inspectData old) target) as (Hpn & Hpi & _).
  simpl in Hpn, Hpi. rewrite Hpn in Hn. rewrite Hpi in Hr.
  injection Hn as <-. injection Hr as <-.
  pose proof (temp_name_fresh target) as Hfresh.
  exists old, (withRunning true c). unfold named. simpl.
  split; [done|]. split; [|split; [|split; [|split]]].
  - rewrite !named_update_running, Hcs.
    simpl. rewrite filter_app, named_rename_away by done.
    rewrite filter_cons, filter_nil, decide_True by done. simpl.
    destruct (decide (cName c = target +:+ "-old-temp")) as [Heq|_];
      [congruence|].
    by rewrite decide_True.
  - rewrite !named_update_running, !ids_update_running, Hcs. simpl.
    rewrite filter_app, filter_cons, filter_nil.
    rewrite decide_False by congruence. rewrite app_nil_r.
    rewrite lookupC_named in Hfree. apply head_None in Hfree.
    rewrite named_rename_to by done.
    rewrite <- list_fmap_compose. done.
  - done.
  - done.
  - simpl. by rewrite Hci.
Qed.

(** C1.  When every step of a replacement succeeds (every awaited call
    reports success and the un-awaited start is not rejected), then
    afterwards exactly one container holds the target name, no container
    holds the temporary name [target-old-temp], and the container under the
    target name is the newly created one, made from the image reference of
    the replaced container at the content the local cache holds for it. *)
Theorem replace_success info target w r w' tr :
  updateImage info target w = (r, w', tr) →
  forallb succeeded tr = true →
  ∃ old new,
    lookupC (ByName target) (containers w) = Some old
    ∧ named target w' = [new]
    ∧ named (target +:+ "-old-temp") w' = []
    ∧ cId new = nextId w
    ∧ cImage new = cImage old
    ∧ images w !! cImage old = Some (cImageId new).
Proof.
  run_updateImage target w.
  all: intros [= <- <- <-] Hall; simpl in Hall; try discriminate Hall.
  all: try (destruct rb; discriminate Hall).
  destruct (steps_1_to_5 _ _ _ _ _ _ _ _ _ _ Hinspect Hrename Hcreate Hstop Hstart)
    as (old & new & Hold & Hnew & _ & Hid & Himg & Hcache).
  apply remove_ok in Hremove as ->.
  exists old, new. unfold named in *. simpl.
  rewrite named_remove_other by apply temp_name_fresh.
  rewrite named_remove_same. done.
Qed.

Lemma replace_success_witness :
  ∃ old new,
    lookupC (ByName "web") (containers pulled) = Some old
    ∧ named "web" (updateImage info "web" pulled).1.2 = [new]
    ∧ named "web-old-temp" (updateImage info "web" pulled).1.2 = []
    ∧ cId new = nextId pulled
    ∧ cImage new = cImage old
    ∧ images pulled !! cImage old = Some (cImageId new).
Proof.
  eapply (replace_success info "web" pulled).
  - vm_compute. reflexivity.
  - vm_compute. reflexivity.
Defined.

(** C4 does not hold of the code.  The claim: when the first five steps of a
    replacement succeed and only the final removal of the old container
    fails, the error is reported but nothing is rolled back, and no rename of
    the temporary name back to the target name is attempted.  The code: the
    removal is awaited inside the try block whose handler, written for a
    failing creation or start, rolls back; so the rollback rename from the
    temporary name back to the target name is issued.  The engine refuses it,
    because the new container holds the target name; so the replacement ends
    rejected with the error of that rename, the new container keeps the
    target name, and the containers that held it before stay under the
    temporary name. *)
Theorem removal_failure_attempts_rollback info target w r w' tr :
  updateImage info target w = (r, w', tr) →
  Awaited (CRemove (ByName (target +:+ "-old-temp"))) false ∈ tr →
  (∀ c e, Unhandled c e ∉ tr) →
  Issued (CRename (ByName (target +:+ "-old-temp")) target) ∈ tr
  ∧ (∃ e, r = Throw e)
  ∧ (∃ new, named target w' = [new] ∧ cId new = nextId w)
  ∧ cId <$> named (target +:+ "-old-temp") w' = cId <$> named target w.
Proof.
  run_updateImage target w.
  all: intros [= <- <- <-] Hfailed Hstarted.
  all: try (exfalso; trace_inv Hfailed; fail).
  2:{ exfalso. eapply Hstarted. trace_in. }
  destruct (steps_1_to_5 _ _ _ _ _ _ _ _ _ _ Hinspect Hrename Hcreate Hstop Hstart)
    as (old & new & Hold & Hnew & Hkept & Hid & _).
  apply remove_failed in Hremove as ->.
  apply rename_taken in Hrollback as [[e ->] ->].
  2:{ rewrite lookupC_named. unfold named in *. simpl. rewrite Hnew. by eexists. }
  split; [trace_in|]. split; [eauto|].
  unfold named in *. simpl. eauto.
Qed.

Lemma removal_failure_attempts_rollback_witness :
  Issued (CRename (ByName "web-old-temp") "web")
    ∈ (updateImage info "web" removalFails).2
  ∧ (∃ e, (updateImage info "web" removalFails).1.1 = Throw e)
  ∧ (∃ new, named "web" (updateImage info "web" removalFails).1.2 = [new]
            ∧ cId new = nextId removalFails)
  ∧ cId <$> named "web-old-temp" (updateImage info "web" removalFails).1.2
    = cId <$> named "web" removalFails.
Proof.
  eapply (removal_failure_attempts_rollback info "web" removalFails).
  - vm_compute. reflexivity.
  - vm_compute. trace_in.
  - intros c e Hin. vm_compute in Hin. trace_inv Hin.
Defined.

(** C4 as stated, refuted at [removalFails]: with only the removal answered
    500, the trace of the replacement shows the rollback rename being
    issued. *)
Lemma removal_failure_no_rollback_counterexample :
  ¬ (∀ info target w r w' tr,
       updateImage info target w = (r, w', tr) →
       Awaited (CRemove (ByName (target +:+ "-old-temp"))) false ∈ tr →
       (∀ c e, Unhandled c e ∉ tr) →
       Issued (CRename (ByName (target +:+ "-old-temp")) target) ∉ tr).
Proof.
  intros claim.
  eapply (claim info "web" removalFails).
  - vm_compute. reflexivity.
  - vm_compute. trace_in.
  - intros c e Hin. trace_inv Hin.
  - trace_in.
Qed.

(** C9 (amended).  The creation spec a replacement sends to the engine is
    built from the inspect of the replaced container: [name] is the target
    name, [Image] is the inspected [Config.Image], [HostConfig] is a new
    object holding only [PortBindings], set to the inspected
    [NetworkSettings.Ports], and every other property is taken from the
    inspected [Config] section (environment, labels, ...) or, where [Config]
    has none, from the listing entry.  The inspected [HostConfig] is not
    carried over. *)
Theorem creation_spec info target w r w' tr p :
  updateImage info target w = (r, w', tr) →
  Issued (CCreate p) ∈ tr →
  ∃ old,
    lookupC (ByName target) (containers w) = Some old
    ∧ p !! "name" = Some (JStr target)
    ∧ p !! "Image" = Some (JStr (cImage old))
    ∧ p !! "HostConfig" = Some (JObj [("PortBindings", cPorts old)])
    ∧ ∀ k, k ≠ "name" → k ≠ "Image" → k ≠ "HostConfig" →
           p !! k = (cConfig old ∪ info) !! k.
Proof.
  run_updateImage target w.
  all: intros [= <- <- <-] Hin.
  all: repeat (apply elem_of_cons in Hin as [Hin|Hin];
    [first [discriminate Hin
           | injection Hin as ->;
             apply inspect_ok in Hinspect as (-> & old & Hold & ->);
             exists old; split; [done|];
             apply (payload_contents info (inspectData old) target)]|]).
  all: apply elem_of_nil in Hin; contradiction.
Qed.

Lemma creation_spec_witness :
  ∃ old,
    lookupC (ByName "web") (containers pulled) = Some old
    ∧ spec !! "name" = Some (JStr "web")
    ∧ spec !! "Image" = Some (JStr (cImage old))
    ∧ spec !! "HostConfig" = Some (JObj [("PortBindings", cPorts old)])
    ∧ ∀ k, k ≠ "name" → k ≠ "Image" → k ≠ "HostConfig" →
           spec !! k = (cConfig old ∪ info) !! k.
Proof.
  eapply (creation_spec info "web" pulled).
  - vm_compute. reflexivity.
  - do 4 apply list_elem_of_further. apply list_elem_of_here.
Defined.

(** C9 (as stated) fails: [web] was created with the bind mount
    [/srv/data:/data] in its [HostConfig]; the creation spec built for its
    replacement has no [Binds] in its [HostConfig]. *)
Lemma creation_spec_verbatim_counterexample :
  ¬ (∀ info target w r w' tr p old,
       updateImage info target w = (r, w', tr) →
       Issued (CCreate p) ∈ tr →
       lookupC (ByName target) (containers w) = Some old →
       p !! "Env" = cConfig old !! "Env"
       ∧ p !! "Labels" = cConfig old !! "Labels"
       ∧ hostConfigField "PortBindings" p = jfield "PortBindings" (cHostConfig old)
       ∧ hostConfigField "Binds" p = jfield "Binds" (cHostConfig old)).
Proof.
  intros claim.
  destruct (claim info "web" pulled (Ok ()) _ _ spec web eq_refl)
    as (_ & _ & _ & Hbinds).
  - do 4 apply list_elem_of_further. apply list_elem_of_here.
  - reflexivity.
  - vm_compute in Hbinds. discriminate Hbinds.
Qed.

(** C3 does not hold of the code.  The claim: when creating the new
    container, stopping the old one or starting the new one fails, the
    coordinator renames the temporary name back to the target name, and
    afterwards the restored original alone holds the target name.  The code
    at a failing start: the start is not awaited, so its rejection reaches no
    handler; no rollback rename is issued, the old container is removed, and
    the target name is left with the new container, which never started. *)
Theorem start_failure_not_rolled_back :
  updateImage info "web" startFails =
    (Ok (),
     MkWorld [Container 1 "web" "app:latest" "sha:BBB"
                (delete "HostConfig" (delete "name" (delete "Image" spec)))
                (JObj [("PortBindings", cPorts web)]) (cPorts web) (JArr [])
                false]
             {["app:latest" := "sha:BBB"]} {["app:latest" := "sha:BBB"]} 2 [],
     [Issued (CInspect (ByName "web")); Awaited (CInspect (ByName "web")) true;
      Issued (CRename (ByName "web") "web-old-temp");
      Awaited (CRename (ByName "web") "web-old-temp") true;
      Issued (CCreate spec); Awaited (CCreate spec) true;
      Issued (CStop (ByName "web-old-temp"));
      Awaited (CStop (ByName "web-old-temp")) true;
      Issued (CStart (ById 1)); Unhandled (CStart (ById 1)) (EngineError 500);
      Issued (CRemove (ByName "web-old-temp"));
      Awaited (CRemove (ByName "web-old-temp")) true]).
Proof. vm_compute. reflexivity. Qed.

(** When stopping the old container fails, the rollback rename is issued but
    the engine refuses it, because the new container already holds the
    target name: both containers remain, the old one under the temporary
    name. *)
Example stop_failure_rollback_refused :
  (updateImage info "web" stopFails).1.1 = Throw (EngineError 409)
  ∧ (cId <$> named "web" (updateImage info "web" stopFails).1.2) = [1%nat]
  ∧ (cId <$> named "web-old-temp" (updateImage info "web" stopFails).1.2)
    = [0%nat].
Proof. vm_compute. done. Qed.

(** X13.  The part of the rollback that works: when creating the new
    container fails, the rollback rename is issued, and if it succeeds the
    containers that held the target name hold it again and nothing is left
    under the temporary name. *)
Lemma create_failure_rolled_back info target w r w' tr p :
  updateImage info target w = (r, w', tr) →
  Awaited (CCreate p) false ∈ tr →
  Issued (CRename (ByName (target +:+ "-old-temp")) target) ∈ tr
  ∧ (r = Ok () →
     cId <$> named target w' = cId <$> named target w
     ∧ named (target +:+ "-old-temp") w' = []).
Proof.
  run_updateImage target w.
  all: intros [= <- <- <-] Hfailed.
  all: try (exfalso; trace_inv Hfailed; fail).
  split; [trace_in|]. intros ->.
  pose proof (temp_name_fresh target) as Hfresh.
  apply inspect_ok in Hinspect as (-> & _).
  apply rename_ok in Hrename as (_ & Hfree & ->).
  apply createContainer_failed in Hcreate as ->.
  apply rename_ok in Hrollback as (_ & _ & ->).
  rewrite lookupC_named in Hfree. apply head_None in Hfree.
  unfold named in *. simpl in *. split.
  - rewrite named_rename_to; [|done|by apply named_rename_away].
    rewrite named_rename_to by done.
    by rewrite <- !list_fmap_compose.
  - by apply named_rename_away.
Qed.

(** C2 does not hold of the code.  The claim: the steps of a replacement
    run strictly one after the other, and the removal of the old container
    begins only once the result of starting the new container is known.  The
    code on a run without any fault: the start is issued and, with nothing
    awaited in between, the removal is issued; the result of the start is
    never received by the program. *)
Theorem removal_issued_before_start_known :
  (updateImage info "web" pulled).2 =
    [Issued (CInspect (ByName "web")); Awaited (CInspect (ByName "web")) true;
     Issued (CRename (ByName "web") "web-old-temp");
     Awaited (CRename (ByName "web") "web-old-temp") true;
     Issued (CCreate spec); Awaited (CCreate spec) true;
     Issued (CStop (ByName "web-old-temp"));
     Awaited (CStop (ByName "web-old-temp")) true;
     Issued (CStart (ById 1));
     Issued (CRemove (ByName "web-old-temp"));
     Awaited (CRemove (ByName "web-old-temp")) true]
  ∧ ¬ sequential (updateImage info "web" pulled).2.
Proof.
  assert (Htr : (updateImage info "web" pulled).2 =
    [Issued (CInspect (ByName "web")); Awaited (CInspect (ByName "web")) true;
     Issued (CRename (ByName "web") "web-old-temp");
     Awaited (CRename (ByName "web") "web-old-temp") true;
     Issued (CCreate spec); Awaited (CCreate spec) true;
     Issued (CStop (ByName "web-old-temp"));
     Awaited (CStop (ByName "web-old-temp")) true;
     Issued (CStart (ById 1));
     Issued (CRemove (ByName "web-old-temp"));
     Awaited (CRemove (ByName "web-old-temp")) true]).
  { vm_compute. reflexivity. }
  split; [exact Htr|]. rewrite Htr. intros Hseq.
  do 4 (inversion Hseq as [|? ? ? Hseq']; subst; clear Hseq; rename Hseq' into Hseq).
  inversion Hseq.
Qed.

Ltac seq_inv H :=
  repeat (let H' := fresh in
          inversion H as [|? ? ? H']; subst; clear H; rename H' into H).

(** The same holds of every replacement that gets as far as starting the new
    container: its trace is not strictly sequential, and the result of the
    start is never awaited. *)
Lemma start_never_awaited info target w r w' tr h :
  updateImage info target w = (r, w', tr) →
  Issued (CStart h) ∈ tr →
  ¬ sequential tr ∧ ∀ ok, Awaited (CStart h) ok ∉ tr.
Proof.
  run_updateImage target w.
  all: intros [= <- <- <-] Hin.
  all: try (exfalso; trace_inv Hin; fail).
  all: split; [intros Hseq; seq_inv Hseq | intros ok Hok; trace_inv Hok].
Qed.

(** X14.  The start apart, the steps of every replacement are strictly
    sequential: each call is awaited before the next one is issued. *)
Lemma other_steps_sequential info target w :
  sequential
    (List.filter (λ e, negb (aboutStart e)) (updateImage info target w).2).
Proof.
  run_updateImage target w.
  all: repeat constructor.
Qed.

(** C5 does not hold of the code.  The claim: every error of a pass,
    including a failing rollback rename, is caught inside the pass, which
    always resolves.  The code: the replacement is returned from inside the
    [try] without being awaited, so the pass settles as the replacement
    does.  With the creation answered 500 and the rollback rename 503, the
    pass is rejected with the engine error 503; with the inspect at the start
    of the replacement answered 500, it is rejected with 500. *)
Theorem pass_rejects_on_rollback_failure :
  (checkForUpdates rollbackFails).1.1 = Throw (EngineError 503)
  ∧ (checkForUpdates (world cached [NoFault; Fail 500; Fail 500])).1.1
    = Throw (EngineError 500).
Proof. split; vm_compute; reflexivity. Qed.

End Replacement.

(** ** The reconciliation pass *)

Section Pass.

(** Detection never touches a container. *)
Lemma checkIfImageNeedsUpdate_containers name w r w' tr :
  checkIfImageNeedsUpdate name w = (r, w', tr) →
  containers w' = containers w.
Proof.
  unfold checkIfImageNeedsUpdate, getRemoteImageId. unfold_async.
  destruct (inspect (ByName name) w) as [[d|e] w1] eqn:H1; simpl;
    apply inspect_containers in H1; [|by intros [= <- <- <-]].
  destruct (pull _ w1) as [[rid|e] w2] eqn:H2; simpl;
    apply pull_containers in H2.
  - destruct (followProgress _ _ w2) as [[out|e] w3] eqn:H3; simpl;
      apply followProgress_containers in H3; [|intros [= <- <- <-]; congruence].
    destruct (imageInspect _ w3) as [[img|e] w4] eqn:H4; simpl;
      apply imageInspect_containers in H4;
      [case_if; simpl|]; intros [= <- <- <-]; congruence.
  - repeat case_decide; simpl.
    3:{ intros [= <- <- <-]; congruence. }
    all: destruct (imageInspect _ w2) as [[img|e'] w4] eqn:H4; simpl;
      apply imageInspect_containers in H4;
      [case_if; simpl|]; intros [= <- <- <-]; congruence.
Qed.

Lemma NoDrift_containers cs w w' tr :
  NoDrift cs w w' tr → containers w' = containers w.
Proof.
  induction 1 as [|info name rest w w1 t1 w2 t2 _ Hcheck _ IH]; [done|].
  apply checkIfImageNeedsUpdate_containers in Hcheck. congruence.
Qed.

Lemma scan_spec cs :
  Forall (λ info, ∃ name, firstName info = mret name) cs →
  ∀ w,
    (∃ w2 t2, NoDrift cs w w2 t2 ∧ scan cs w = (Ok None, w2, t2))
    ∨ (∃ pre info post name w2 t2 w3 t3,
         cs = pre ++ info :: post
         ∧ NoDrift pre w w2 t2
         ∧ firstName info = mret name
         ∧ checkIfImageNeedsUpdate name w2 = (Ok true, w3, t3)
         ∧ scan cs w = (Ok (Some (updateImage info name)), w3, t2 ++ t3)).
Proof.
  induction 1 as [|info rest [name Hname] _ IH]; intros w.
  { left. exists w, []. split; [constructor|done]. }
  destruct (checkIfImageNeedsUpdate_total name w) as (b & w1 & t1 & Hcheck).
  assert (Hscan : scan (info :: rest) w =
            if b then (Ok (Some (updateImage info name)), w1, t1 ++ [])
            else let '(r, w2, t2) := scan rest w1 in (r, w2, t1 ++ t2)).
  { simpl. rewrite Hname. unfold_async. rewrite Hcheck.
    destruct b; simpl; [done|]. by destruct (scan rest w1) as [[? ?] ?]. }
  destruct b.
  - right. exists [], info, rest, name, w, [], w1, t1.
    rewrite app_nil_r in Hscan. repeat split; try done. constructor.
  - destruct (IH w1) as [(w2 & t2 & Hclean & Hrest)
                        |(pre & i & post & n & w2 & t2 & w3 & t3
                          & -> & Hclean & Hn & Hdrift & Hrest)].
    + left. exists w2, (t1 ++ t2). rewrite Hscan, Hrest.
      split; [by econstructor|done].
    + right. exists (info :: pre), i, post, n, w2, (t1 ++ t2), w3, t3.
      rewrite Hscan, Hrest, app_assoc.
      repeat split; try done. by econstructor.
Qed.

(** C10.  For every listing [cs] of running containers a pass does one of
    two things.  Either detection, run on the entries in listing order,
    answers no-update for every entry: then the pass consists of the listing
    and these detections, resolves, and leaves the containers as they were.
    Or the listing splits as [pre ++ info :: post] where detection answers
    no-update for the entries of [pre], in order, and drift for [info]: then
    the pass consists of the listing, these detections and the replacement of
    [info], and settles as the replacement does; nothing is done for the
    entries of [post]. *)
Theorem pass_stops_at_first_drift w cs w1 :
  listContainers w = (Ok cs, w1) →
  (∃ w2 t2,
     NoDrift cs w1 w2 t2
     ∧ containers w2 = containers w
     ∧ checkForUpdates w =
         (Ok (), w2, Issued CList :: Awaited CList true :: t2))
  ∨ (∃ pre info post name w2 t2 w3 t3,
       cs = pre ++ info :: post
       ∧ NoDrift pre w1 w2 t2
       ∧ firstName info = mret name
       ∧ checkIfImageNeedsUpdate name w2 = (Ok true, w3, t3)
       ∧ containers w3 = containers w
       ∧ checkForUpdates w =
           let '(r, w4, t4) := updateImage info name w3 in
           (r, w4, Issued CList :: Awaited CList true :: t2 ++ t3 ++ t4)).
Proof.
  intros Hlist.
  destruct (listContainers_ok _ _ _ Hlist) as [Hw1 Hcs].
  assert (Hnames : Forall (λ info, ∃ name, firstName info = mret name) cs).
  { rewrite Hcs. apply Forall_fmap, Forall_forall. intros c _.
    exists (cName c). apply firstName_summary. }
  assert (Hsame : containers w1 = containers w) by by subst w1.
  unfold checkForUpdates. unfold_async. rewrite Hlist. simpl.
  destruct (scan_spec cs Hnames w1)
    as [(w2 & t2 & Hclean & ->)
       |(pre & info & post & name & w2 & t2 & w3 & t3
         & -> & Hclean & Hname & Hdrift & ->)]; simpl.
  - left. exists w2, t2. rewrite app_nil_r.
    apply NoDrift_containers in Hclean as Hcont.
    repeat split; [done|congruence].
  - right. exists pre, info, post, name, w2, t2, w3, t3.
    apply NoDrift_containers in Hclean as Hcont.
    apply checkIfImageNeedsUpdate_containers in Hdrift as Hcont'.
    repeat split; try done; [congruence|].
    destruct (updateImage info name w3) as [[r w4] t4].
    by rewrite <- app_assoc.
Qed.

Lemma pass_stops_at_first_drift_witness :
  (∃ w2 t2,
     NoDrift (summary <$> [db; web; kv]) fleet w2 t2
     ∧ containers w2 = containers fleet
     ∧ checkForUpdates fleet =
         (Ok (), w2, Issued CList :: Awaited CList true :: t2))
  ∨ (∃ pre info post name w2 t2 w3 t3,
       summary <$> [db; web; kv] = pre ++ info :: post
       ∧ NoDrift pre fleet w2 t2
       ∧ firstName info = mret name
       ∧ checkIfImageNeedsUpdate name w2 = (Ok true, w3, t3)
       ∧ containers w3 = containers fleet
       ∧ checkForUpdates fleet =
           let '(r, w4, t4) := updateImage info name w3 in
           (r, w4, Issued CList :: Awaited CList true :: t2 ++ t3 ++ t4)).
Proof.
  apply (pass_stops_at_first_drift fleet (summary <$> [db; web; kv]) fleet).
  vm_compute. reflexivity.
Defined.

(** On [fleet] the pass inspects [db] and [web] for detection, then [web]
    again for its replacement; [kv], listed after [web], is never looked
    at. *)
Example pass_on_fleet :
  inspected (checkForUpdates fleet).2 = ["db"; "web"; "web"]
  ∧ (cName <$> containers (checkForUpdates fleet).1.2) = ["db"; "kv"; "web"]
  ∧ (cImageId <$> named "web" (checkForUpdates fleet).1.2) = ["sha:BBB"].
Proof. vm_compute. done. Qed.

(** The scenario of the specification: [web] runs [app:latest] at [sha:AAA]
    and the registry serves [sha:BBB].  After one pass a container named
    [web] runs [sha:BBB] and no container is named [web-old-temp]. *)
Example pass_updates_web :
  (checkForUpdates (world cached [])).1.1 = Ok ()
  ∧ (cImageId <$> named "web" (checkForUpdates (world cached [])).1.2)
    = ["sha:BBB"]
  ∧ named "web-old-temp" (checkForUpdates (world cached [])).1.2 = [].
Proof. vm_compute. done. Qed.

End Pass.

(** * Further properties of the code *)

(** ** Drift detection *)

Section MoreDetection.

Ltac run_detection name w :=
  unfold checkIfImageNeedsUpdate, getRemoteImageId; unfold_async;
  destruct (inspect (ByName name) w) as [[d|e1] w1] eqn:Hinspect; simpl;
  [ destruct (pull _ w1) as [[rid|e2] w2] eqn:Hpull; simpl;
    [ destruct (followProgress _ _ w2) as [[out|e3] w3] eqn:Hfollow; simpl;
      [ destruct (imageInspect _ w3) as [[img|e4] w4] eqn:Himg; simpl;
        [ case_if; simpl | ]
      | ]
    | repeat case_decide; simpl;
      [ destruct (imageInspect _ w2) as [[img|e4] w4] eqn:Himg; simpl;
        [ case_if; simpl | ]
      | destruct (imageInspect _ w2) as [[img|e4] w4] eqn:Himg; simpl;
        [ case_if; simpl | ]
      | ] ]
  | ].

(** X1.  Drift detection never rejects: whatever the engine answers to its
    calls, [checkIfImageNeedsUpdate] resolves to a boolean. *)
Theorem detection_always_resolves name w :
  ∃ b, (checkIfImageNeedsUpdate name w).1.1 = Ok b.
Proof.
  destruct (checkIfImageNeedsUpdate_total name w) as (b & w' & tr & ->).
  by exists b.
Qed.

(** X2.  Drift detection only reads and pulls: every call it issues is a
    container inspect, a pull, a follow of the pull or an image inspect,
    and the containers of the engine are afterwards what they were. *)
Theorem detection_reads_only name w r w' tr :
  checkIfImageNeedsUpdate name w = (r, w', tr) →
  forallb readsOnly tr = true ∧ containers w' = containers w.
Proof.
  intros Hrun. split; [|by eapply checkIfImageNeedsUpdate_containers].
  revert Hrun. run_detection name w.
  all: by intros [= <- <- <-].
Qed.

Lemma detection_reads_only_witness :
  forallb readsOnly (checkIfImageNeedsUpdate "web" (world cached [])).2 = true
  ∧ containers (checkIfImageNeedsUpdate "web" (world cached [])).1.2
    = containers (world cached []).
Proof.
  eapply (detection_reads_only "web" (world cached [])).
  vm_compute. reflexivity.
Defined.

(** X3.  When the container inspect succeeds, the pull sub-step resolves
    and the local image inspect succeeds, detection reports drift exactly
    when the id of the local image is not empty and differs from the image
    id the container runs. *)
Theorem detection_compares_ids name w d w1 rid w2 t2 img w3 :
  inspect (ByName name) w = (Ok d, w1) →
  getRemoteImageId (cfgImage (Config d)) w1 = (Ok rid, w2, t2) →
  imageInspect (cfgImage (Config d)) w2 = (Ok img, w3) →
  (checkIfImageNeedsUpdate name w).1.1
  = Ok (bool_decide (Id img ≠ "" ∧ Id img ≠ Image d)).
Proof.
  intros Hinspect Hpull Himg.
  unfold checkIfImageNeedsUpdate. unfold_async.
  rewrite Hinspect. simpl. rewrite Hpull, Himg. simpl.
  destruct (decide (Id img = "")) as [Hempty|Hfull].
  - rewrite (bool_decide_eq_false_2 (Id img ≠ "")) by tauto. simpl.
    by rewrite bool_decide_eq_false_2 by tauto.
  - rewrite (bool_decide_eq_true_2 (Id img ≠ "")) by done. simpl.
    destruct (decide (Id img = Image d)) as [Hsame|Hdiff].
    + rewrite bool_decide_eq_false_2 by (intros Hne; apply Hne; congruence).
      simpl. by rewrite bool_decide_eq_false_2 by tauto.
    + rewrite bool_decide_eq_true_2 by congruence.
      simpl. by rewrite bool_decide_eq_true_2 by tauto.
Qed.

Lemma detection_compares_ids_witness :
  (checkIfImageNeedsUpdate "web" (world cached [])).1.1
  = Ok (bool_decide (Id (MkImage "sha:BBB") ≠ ""
                     ∧ Id (MkImage "sha:BBB") ≠ Image (inspectData web))).
Proof.
  eapply (detection_compares_ids "web" (world cached []) (inspectData web)).
  - vm_compute. reflexivity.
  - vm_compute. reflexivity.
  - vm_compute. reflexivity.
Defined.

(** X5.  [getRemoteImageId] rejects with [e] exactly when the pull fails
    with [e] and a status other than 401 and 404, or the pull starts and
    following it fails with [e]; a pull refused with 401 or 404 resolves. *)
Theorem getRemoteImageId_rejects_iff imageName w r w' tr e :
  getRemoteImageId imageName w = (r, w', tr) →
  r = Throw e ↔
    (pull imageName w = (Throw e, w')
     ∧ statusCode e ≠ Some 401 ∧ statusCode e ≠ Some 404)
    ∨ (∃ stream w1,
         pull imageName w = (Ok stream, w1)
         ∧ followProgress imageName stream w1 = (Throw e, w')).
Proof.
  unfold getRemoteImageId. unfold_async.
  destruct (pull imageName w) as [[stream|e2] w2] eqn:Hpull; simpl.
  - destruct (followProgress imageName stream w2) as [[out|e3] w3] eqn:Hfollow;
      simpl; intros [= <- <- <-]; split.
    + done.
    + intros [[[=] _]|(s & w1 & [= <- <-] & Hf)]. by rewrite Hfollow in Hf.
    + intros [= ->]. right. eauto.
    + intros [[[=] _]|(s & w1 & [= <- <-] & Hf)].
      rewrite Hfollow in Hf. by injection Hf as ->.
  - repeat case_decide; simpl; intros [= <- <- <-]; split; try done.
    + intros [([= ->] & Hne & _)|(s & w1 & [=] & _)]. done.
    + intros [([= ->] & _ & Hne)|(s & w1 & [=] & _)]. done.
    + intros [= ->]. by left.
    + by intros [([= ->] & _)|(s & w1 & [=] & _)].
Qed.

Lemma getRemoteImageId_rejects_iff_witness :
  (getRemoteImageId "app:latest" (world cached [Fail 500])).1.1
  = Throw (EngineError 500).
Proof.
  destruct (getRemoteImageId "app:latest" (world cached [Fail 500]))
    as [[r w'] tr] eqn:E.
  apply (proj2 (getRemoteImageId_rejects_iff _ _ _ _ _ (EngineError 500) E)).
  left. vm_compute in E. injection E as <- <- <-.
  split; [vm_compute; reflexivity|]. split; vm_compute; discriminate.
Defined.

Lemma compare_ids (iid cid : string) :
  bool_decide (iid ≠ "") && bool_decide (Some cid ≠ Some iid)
  = bool_decide (iid ≠ "" ∧ iid ≠ cid).
Proof.
  rewrite <- bool_decide_and. apply bool_decide_ext.
  split; intros [Hfull Hdiff]; (split; [done|congruence]).
Qed.

(** Detection on an engine that answers every call: the answer, and the
    fact that a second run repeats the first. *)
Lemma detection_nofault name w :
  faults w = [] →
  ∃ b w' tr,
    checkIfImageNeedsUpdate name w = (Ok b, w', tr)
    ∧ faults w' = []
    ∧ containers w' = containers w
    ∧ registry w' = registry w
    ∧ nextId w' = nextId w
    ∧ checkIfImageNeedsUpdate name w' = (Ok b, w', tr)
    ∧ ∀ c, lookupC (ByName name) (containers w) = Some c →
           b = match images w' !! cImage c with
               | Some iid => bool_decide (iid ≠ "" ∧ iid ≠ cImageId c)
               | None => false
               end.
Proof.
  intros Hf.
  unfold checkIfImageNeedsUpdate, getRemoteImageId. unfold_async.
  rewrite inspect_nofault by done.
  destruct (lookupC (ByName name) (containers w)) as [c|] eqn:Hc; simpl.
  2:{ eexists _, _, _. split; [done|]. repeat split; try done.
      rewrite inspect_nofault by done. by rewrite Hc. }
  rewrite pull_nofault by done.
  destruct (registry w !! cImage c) as [rid|] eqn:Hreg; simpl.
  - destruct (followProgress_nofault (cImage c) rid w Hf) as [out ->]. simpl.
    rewrite imageInspect_nofault by done. simpl.
    rewrite lookup_insert_eq. simpl. rewrite compare_ids.
    remember (setImages (<[cImage c := rid]> (images w)) w) as w' eqn:Hw'.
    assert (Hf' : faults w' = []) by by subst w'.
    assert (Hcs' : containers w' = containers w) by by subst w'.
    assert (Hreg' : registry w' = registry w) by by subst w'.
    assert (Hn' : nextId w' = nextId w) by by subst w'.
    assert (Himg' : images w' !! cImage c = Some rid).
    { subst w'. simpl. by rewrite lookup_insert_eq. }
    assert (Hsame : setImages (<[cImage c := rid]> (images w')) w' = w').
    { subst w'. unfold setImages. simpl. by rewrite insert_insert_eq. }
    clear Hw'.
    destruct (bool_decide (rid ≠ "" ∧ rid ≠ cImageId c)) eqn:Hb; simpl.
    all: eexists _, _, _; (split; [done|]).
    all: split; [done|]; split; [done|]; split; [done|]; split; [done|]; split.
    all: try (intros c0 [= <-]; by rewrite Himg', Hb).
    all: rewrite inspect_nofault by done; rewrite Hcs', Hc; simpl.
    all: rewrite pull_nofault by done; rewrite Hreg', Hreg; simpl.
    all: destruct (followProgress_nofault (cImage c) rid w' Hf') as [out' ->].
    all: simpl; rewrite Hsame.
    all: rewrite imageInspect_nofault by done; rewrite Himg'; simpl.
    all: rewrite compare_ids; by rewrite Hb.
  - rewrite imageInspect_nofault by done.
    destruct (images w !! cImage c) as [iid|] eqn:Himg; simpl.
    + rewrite compare_ids.
      destruct (bool_decide (iid ≠ "" ∧ iid ≠ cImageId c)) eqn:Hb; simpl.
      all: eexists _, _, _; (split; [done|]).
      all: split; [done|]; split; [done|]; split; [done|]; split; [done|]; split.
      all: try (intros c0 [= <-]; by rewrite Himg, Hb).
      all: rewrite inspect_nofault by done; rewrite Hc; simpl.
      all: rewrite pull_nofault by done; rewrite Hreg; simpl.
      all: rewrite imageInspect_nofault by done; rewrite Himg; simpl.
      all: rewrite compare_ids; by rewrite Hb.
    + eexists _, _, _. split; [done|]. repeat split; try done.
      * rewrite inspect_nofault by done. rewrite Hc. simpl.
        rewrite pull_nofault by done. rewrite Hreg. simpl.
        rewrite imageInspect_nofault by done. by rewrite Himg.
      * intros c0 [= <-]. by rewrite Himg.
Qed.

(** X4.  On an engine that answers every call, detection is idempotent:
    run again on the engine the first run left, it gives the same answer
    with the same calls and leaves that engine as it is. *)
Theorem detection_idempotent name w r w' tr :
  faults w = [] →
  checkIfImageNeedsUpdate name w = (r, w', tr) →
  checkIfImageNeedsUpdate name w' = (r, w', tr).
Proof.
  intros Hf Hrun.
  destruct (detection_nofault name w Hf)
    as (b & w1 & t1 & H1 & _ & _ & _ & _ & H2 & _).
  rewrite Hrun in H1. by injection H1 as -> -> ->.
Qed.

Lemma detection_idempotent_witness :
  checkIfImageNeedsUpdate "web" (world {["app:latest" := "sha:BBB"]} [])
  = (Ok true, world {["app:latest" := "sha:BBB"]} [],
     (checkIfImageNeedsUpdate "web" (world cached [])).2).
Proof.
  apply (detection_idempotent "web" (world cached [])).
  - reflexivity.
  - vm_compute. reflexivity.
Defined.

(** The local cache after a detection on an engine that answers every
    call. *)
Lemma detection_nofault_cache name w c :
  faults w = [] →
  lookupC (ByName name) (containers w) = Some c →
  images (checkIfImageNeedsUpdate name w).1.2
  = match registry w !! cImage c with
    | Some rid => <[cImage c := rid]> (images w)
    | None => images w
    end.
Proof.
  intros Hf Hc.
  unfold checkIfImageNeedsUpdate, getRemoteImageId. unfold_async.
  rewrite inspect_nofault by done. rewrite Hc. simpl.
  rewrite pull_nofault by done.
  destruct (registry w !! cImage c) as [rid|] eqn:Hreg; simpl.
  - destruct (followProgress_nofault (cImage c) rid w Hf) as [out ->]. simpl.
    rewrite imageInspect_nofault by done. simpl.
    rewrite lookup_insert_eq. simpl. by case_if.
  - rewrite imageInspect_nofault by done.
    destruct (images w !! cImage c); simpl; [by case_if|done].
Qed.

End MoreDetection.

(** ** Replacement *)

Section MoreReplacement.

Ltac run_updateImage target w :=
  unfold updateImage;
  rewrite !containerManagement_rename, containerManagement_stop,
    containerManagement_remove;
  unfold_async;
  destruct (inspect (ByName target) w) as [[d|e1] w1] eqn:Hinspect; simpl;
  [ destruct (rename (ByName target) (target +:+ "-old-temp") w1)
      as [[[]|e2] w2] eqn:Hrename; simpl;
    [ destruct (createContainer _ w2) as [[newC|e3] w3] eqn:Hcreate; simpl;
      [ destruct (stop _ w3) as [[[]|e4] w4] eqn:Hstop; simpl;
        [ destruct (start newC w4) as [[[]|e5] w5] eqn:Hstart; simpl;
          (destruct (remove _ w5) as [[[]|e6] w6] eqn:Hremove; simpl;
           [ | destruct (rename _ target w6) as [rb w7] eqn:Hrollback; simpl ])
        | destruct (rename _ target w4) as [rb w7] eqn:Hrollback; simpl ]
      | destruct (rename _ target w3) as [rb w7] eqn:Hrollback; simpl ]
    | destruct (rename _ target w2) as [rb w7] eqn:Hrollback; simpl ]
  | ].

(** An event about the first rename is not an event about the rollback
    rename: the two names differ. *)
Ltac names_differ H :=
  exfalso; injection H; intros;
  match goal with
  | Heq : ?t = ?t +:+ "-old-temp" |- _ => exact (temp_name_fresh t Heq)
  | Heq : ?t +:+ "-old-temp" = ?t |- _ => exact (temp_name_fresh t (eq_sym Heq))
  end.

(** X6.  A replacement rejects exactly when its first inspect fails or its
    rollback rename fails: a failure of any other step, followed by a
    rollback rename that succeeds, resolves. *)
Theorem replacement_rejects_iff info target w r w' tr :
  updateImage info target w = (r, w', tr) →
  isOk r = false ↔
    Awaited (CInspect (ByName target)) false ∈ tr
    ∨ Awaited (CRename (ByName (target +:+ "-old-temp")) target) false ∈ tr.
Proof.
  run_updateImage target w.
  all: try destruct rb as [[]|eb]; simpl.
  all: intros [= <- <- <-]; split.
  all: try (intros Hr; discriminate Hr).
  all: try (intros _; first [left; solve [trace_in] | right; solve [trace_in]]).
  all: try (intros _; reflexivity).
  all: intros [Hin|Hin]; trace_inv Hin; names_differ Hin.
Qed.

Lemma replacement_rejects_iff_witness :
  isOk (Throw (EngineError 409) : result ()) = false ↔
    Awaited (CInspect (ByName "web")) false
      ∈ (updateImage info "web" stopFails).2
    ∨ Awaited (CRename (ByName ("web" +:+ "-old-temp")) "web") false
        ∈ (updateImage info "web" stopFails).2.
Proof.
  eapply (replacement_rejects_iff info "web" stopFails).
  vm_compute. reflexivity.
Defined.

(** X8.  A replacement removes nothing but the container under the
    temporary name, and issues that removal only after the rename to the
    temporary name, the creation of the new container and the stop of the
    old one have all succeeded. *)
Theorem removal_only_after_create_and_stop info target w r w' tr h :
  updateImage info target w = (r, w', tr) →
  Issued (CRemove h) ∈ tr →
  h = ByName (target +:+ "-old-temp")
  ∧ Awaited (CRename (ByName target) (target +:+ "-old-temp")) true ∈ tr
  ∧ (∃ p, Awaited (CCreate p) true ∈ tr)
  ∧ Awaited (CStop (ByName (target +:+ "-old-temp"))) true ∈ tr.
Proof.
  run_updateImage target w.
  all: intros [= <- <- <-] Hin.
  all: repeat (apply elem_of_cons in Hin as [Hin|Hin];
    [first [discriminate Hin
           | injection Hin as ->;
             split; [done|]; split; [trace_in|];
             split; [eexists; trace_in|trace_in]]|]).
  all: apply elem_of_nil in Hin; contradiction.
Qed.

Lemma removal_only_after_create_and_stop_witness :
  ByName "web-old-temp" = ByName ("web" +:+ "-old-temp")
  ∧ Awaited (CRename (ByName "web") ("web" +:+ "-old-temp")) true
      ∈ (updateImage info "web" pulled).2
  ∧ (∃ p, Awaited (CCreate p) true ∈ (updateImage info "web" pulled).2)
  ∧ Awaited (CStop (ByName ("web" +:+ "-old-temp"))) true
      ∈ (updateImage info "web" pulled).2.
Proof.
  eapply (removal_only_after_create_and_stop info "web" pulled).
  - vm_compute. reflexivity.
  - do 9 apply list_elem_of_further. apply list_elem_of_here.
Defined.

(** X9.  Unless the removal succeeded, a replacement loses no container:
    the containers the engine had before are all still there, in the same
    order, possibly followed by the new one. *)
Theorem no_container_lost_without_removal info target w r w' tr :
  updateImage info target w = (r, w', tr) →
  Awaited (CRemove (ByName (target +:+ "-old-temp"))) true ∉ tr →
  (cId <$> containers w) `prefix_of` (cId <$> containers w').
Proof.
  run_updateImage target w.
  all: intros [= <- <- <-] Hnot.
  all: try (exfalso; apply Hnot; trace_in; fail).
  all: repeat match goal with
       | H : inspect _ _ = _ |- _ => apply inspect_ids in H
       | H : rename _ _ _ = _ |- _ => apply rename_ids in H
       | H : createContainer _ _ = _ |- _ => apply createContainer_ids in H
       | H : stop _ _ = _ |- _ => apply stop_ids in H
       | H : start _ _ = _ |- _ => apply start_ids in H
       | H : remove _ _ = (Throw _, _) |- _ => apply remove_failed_ids in H
       end.
  all: repeat (etrans; [eassumption|]); done.
Qed.

Lemma no_container_lost_without_removal_witness :
  (cId <$> containers createFails)
    `prefix_of` (cId <$> containers (updateImage info "web" createFails).1.2).
Proof.
  eapply (no_container_lost_without_removal info "web" createFails).
  - vm_compute. reflexivity.
  - intros Hin. trace_inv Hin.
Defined.

(** X10.  When the first rename fails the rollback rename is issued all the
    same; with nothing under the temporary name it fails too, so that the
    replacement rejects, and the containers are what they were. *)
Theorem first_rename_failure info target w r w' tr :
  updateImage info target w = (r, w', tr) →
  Awaited (CRename (ByName target) (target +:+ "-old-temp")) false ∈ tr →
  Issued (CRename (ByName (target +:+ "-old-temp")) target) ∈ tr
  ∧ (named (target +:+ "-old-temp") w = [] →
     (∃ e, r = Throw e) ∧ containers w' = containers w).
Proof.
  run_updateImage target w.
  all: try destruct rb as [[]|eb]; simpl.
  all: intros [= <- <- <-] Hin.
  all: try (exfalso; trace_inv Hin; names_differ Hin).
  all: split; [trace_in|]; intros Hnone.
  all: apply inspect_ok in Hinspect as (-> & _).
  all: apply rename_failed in Hrename as ->.
  all: destruct (rename_missing (ByName (target +:+ "-old-temp")) target
                   (dropFault (dropFault w))) as [e He];
         [rewrite lookupC_named; unfold named in *; simpl; by rewrite Hnone|].
  all: rewrite He in Hrollback; injection Hrollback as <-; try done.
  all: subst; eauto.
Qed.

Lemma first_rename_failure_witness :
  Issued (CRename (ByName ("web" +:+ "-old-temp")) "web")
    ∈ (updateImage info "web" renameFails).2
  ∧ (named ("web" +:+ "-old-temp") renameFails = [] →
     (∃ e, (updateImage info "web" renameFails).1.1 = Throw e)
     ∧ containers (updateImage info "web" renameFails).1.2
       = containers renameFails).
Proof.
  eapply (first_rename_failure info "web" renameFails).
  - vm_compute. reflexivity.
  - do 3 apply list_elem_of_further. apply list_elem_of_here.
Defined.

(** X11.  Replacing a container that does not exist rejects at the first
    inspect: no other call is issued, not even the rollback rename. *)
Theorem replacement_of_missing_target info target w :
  named target w = [] →
  ∃ e, updateImage info target w =
         (Throw e, dropFault w,
          [Issued (CInspect (ByName target));
           Awaited (CInspect (ByName target)) false]).
Proof.
  intros Hnone.
  destruct (inspect_missing (ByName target) w) as [e He].
  { rewrite lookupC_named. by rewrite Hnone. }
  exists e. unfold updateImage. unfold_async. by rewrite He.
Qed.

Lemma replacement_of_missing_target_witness :
  ∃ e, updateImage info "api" pulled =
         (Throw e, dropFault pulled,
          [Issued (CInspect (ByName "api"));
           Awaited (CInspect (ByName "api")) false]).
Proof. apply (replacement_of_missing_target info "api" pulled). reflexivity. Defined.

Lemma others_fresh target cs cs' N :
  Forall (λ c, (cId c < N)%nat) cs →
  others target cs' = others target cs →
  ∀ c, c ∈ others target cs' → cId c ≠ N.
Proof.
  intros Hids -> c [_ Hin]%list_elem_of_filter.
  rewrite Forall_forall in Hids. specialize (Hids c Hin). lia.
Qed.

(** X7.  A replacement touches only the target: the containers that hold
    neither the target name nor its temporary name are afterwards what they
    were, whichever step fails.  The hypothesis is the engine's own
    invariant that the ids in use lie below the next id it hands out. *)
Theorem replacement_frame info target w r w' tr :
  Forall (λ c, (cId c < nextId w)%nat) (containers w) →
  updateImage info target w = (r, w', tr) →
  others target (containers w') = others target (containers w).
Proof.
  intros Hids.
  run_updateImage target w.
  all: intros [= <- <- <-].
  all: pose proof (inspect_nextId _ _ _ _ Hinspect) as Hn1.
  all: apply (inspect_others target) in Hinspect.
  all: try (pose proof (rename_nextId _ _ _ _ _ Hrename) as Hn2;
            apply (rename_others target) in Hrename; [|by left|by right]).
  all: try (apply (rename_others target) in Hrollback; [|by right|by left]).
  all: try (destruct (createContainer_ok _ _ _ _ Hcreate)
              as (?&?&?&?&_&_&_&_&_&_&_&_&_&->&_&_)).
  all: try (apply (createContainer_others target) in Hcreate;
            [|by destruct (payload_contents info d target) as [-> _]]).
  all: try apply (stop_others target) in Hstop.
  all: try apply (remove_others target) in Hremove.
  all: try (apply (start_others target) in Hstart;
            [|rewrite Hn2, Hn1; eapply others_fresh; [exact Hids|congruence]]).
  all: congruence.
Qed.

Lemma replacement_frame_witness :
  others "web" (containers (updateImage info "web" fleet).1.2)
  = others "web" (containers fleet).
Proof.
  eapply (replacement_frame info "web" fleet).
  - repeat constructor.
  - vm_compute. reflexivity.
Defined.

(** The engine after the first three steps of a replacement have succeeded:
    the new container, not started, alone holds the target name, and the
    containers that held it before are under the temporary name. *)
Lemma steps_1_to_3 info target w d w1 w2 newC w3 :
  inspect (ByName target) w = (Ok d, w1) →
  rename (ByName target) (target +:+ "-old-temp") w1 = (Ok (), w2) →
  createContainer (createContainerPayload info d target) w2 = (Ok newC, w3) →
  ∃ new,
    named target w3 = [new]
    ∧ cId <$> named (target +:+ "-old-temp") w3 = cId <$> named target w
    ∧ cId new = nextId w
    ∧ cRunning new = false.
Proof.
  intros Hinspect Hrename Hcreate.
  apply inspect_ok in Hinspect as (-> & old & Hold & ->).
  apply rename_ok in Hrename as (_ & Hfree & ->).
  apply createContainer_ok in Hcreate
    as (n & ref & iid & c & Hn & _ & _ & _ & Hid & Hcn & _ & _ & Hrun & _ & Hcs & _).
  destruct (payload_contents info (inspectData old) target) as (Hpn & _).
  simpl in Hpn. rewrite Hpn in Hn. injection Hn as <-.
  pose proof (temp_name_fresh target) as Hfresh.
  exists c. unfold named. rewrite Hcs. simpl.
  rewrite !filter_app, !filter_cons, !filter_nil.
  rewrite decide_True by done. rewrite decide_False by congruence.
  rewrite named_rename_away by done. rewrite app_nil_r.
  rewrite lookupC_named in Hfree. apply head_None in Hfree.
  rewrite named_rename_to by done.
  rewrite <- list_fmap_compose. done.
Qed.

(** X12.  When stopping the old container fails, the rollback rename is
    issued but cannot succeed, the new container holding the target name:
    the replacement rejects, the new container is left created and not
    started under the target name, and the old one is left under the
    temporary name. *)
Theorem stop_failure_leaves_both info target w r w' tr :
  updateImage info target w = (r, w', tr) →
  Awaited (CStop (ByName (target +:+ "-old-temp"))) false ∈ tr →
  Issued (CRename (ByName (target +:+ "-old-temp")) target) ∈ tr
  ∧ (∃ e, r = Throw e)
  ∧ (∃ new, named target w' = [new]
            ∧ cId new = nextId w ∧ cRunning new = false)
  ∧ cId <$> named (target +:+ "-old-temp") w' = cId <$> named target w.
Proof.
  run_updateImage target w.
  all: intros [= <- <- <-] Hfailed.
  all: try (exfalso; trace_inv Hfailed; fail).
  destruct (steps_1_to_3 _ _ _ _ _ _ _ _ Hinspect Hrename Hcreate)
    as (new & Hnew & Hkept & Hid & Hrun).
  apply stop_failed in Hstop as ->.
  apply rename_taken in Hrollback as [[e ->] ->].
  2:{ rewrite lookupC_named. unfold named in *. simpl. rewrite Hnew. by eexists. }
  split; [trace_in|]. split; [eauto|].
  unfold named in *. simpl. eauto.
Qed.

Lemma stop_failure_leaves_both_witness :
  Issued (CRename (ByName ("web" +:+ "-old-temp")) "web")
    ∈ (updateImage info "web" stopFails).2
  ∧ (∃ e, (updateImage info "web" stopFails).1.1 = Throw e)
  ∧ (∃ new, named "web" (updateImage info "web" stopFails).1.2 = [new]
            ∧ cId new = nextId stopFails ∧ cRunning new = false)
  ∧ cId <$> named ("web" +:+ "-old-temp") (updateImage info "web" stopFails).1.2
    = cId <$> named "web" stopFails.
Proof.
  eapply (stop_failure_leaves_both info "web" stopFails).
  - vm_compute. reflexivity.
  - do 7 apply list_elem_of_further. apply list_elem_of_here.
Defined.

Lemma create_failure_rolled_back_witness :
  Issued (CRename (ByName ("web" +:+ "-old-temp")) "web")
    ∈ (updateImage info "web" createFails).2
  ∧ ((updateImage info "web" createFails).1.1 = Ok () →
     cId <$> named "web" (updateImage info "web" createFails).1.2
     = cId <$> named "web" createFails
     ∧ named ("web" +:+ "-old-temp") (updateImage info "web" createFails).1.2
       = []).
Proof.
  eapply (create_failure_rolled_back info "web" createFails).
  - vm_compute. reflexivity.
  - do 5 apply list_elem_of_further. apply list_elem_of_here.
Defined.

End MoreReplacement.

(** ** The pass *)

Section MorePass.

Ltac run_updateImage target w :=
  unfold updateImage;
  rewrite !containerManagement_rename, containerManagement_stop,
    containerManagement_remove;
  unfold_async;
  destruct (inspect (ByName target) w) as [[d|e1] w1] eqn:Hinspect; simpl;
  [ destruct (rename (ByName target) (target +:+ "-old-temp") w1)
      as [[[]|e2] w2] eqn:Hrename; simpl;
    [ destruct (createContainer _ w2) as [[newC|e3] w3] eqn:Hcreate; simpl;
      [ destruct (stop _ w3) as [[[]|e4] w4] eqn:Hstop; simpl;
        [ destruct (start newC w4) as [[[]|e5] w5] eqn:Hstart; simpl;
          (destruct (remove _ w5) as [[[]|e6] w6] eqn:Hremove; simpl;
           [ | destruct (rename _ target w6) as [rb w7] eqn:Hrollback; simpl ])
        | destruct (rename _ target w4) as [rb w7] eqn:Hrollback; simpl ]
      | destruct (rename _ target w3) as [rb w7] eqn:Hrollback; simpl ]
    | destruct (rename _ target w2) as [rb w7] eqn:Hrollback; simpl ]
  | ].

(** The trace of a replacement shows at most one creation and at most one
    removal. *)
Lemma updateImage_counts info target w :
  (length (List.filter isCreate (updateImage info target w).2) ≤ 1)%nat
  ∧ (length (List.filter isRemove (updateImage info target w).2) ≤ 1)%nat.
Proof.
  run_updateImage target w.
  all: simpl; lia.
Qed.

Lemma reads_no_create tr :
  forallb readsOnly tr = true →
  List.filter isCreate tr = [] ∧ List.filter isRemove tr = [].
Proof.
  induction tr as [|e tr IH]; [done|]. simpl.
  intros [He Htr]%andb_prop. destruct (IH Htr) as [-> ->].
  by destruct e as [[]|[]|[]].
Qed.

Lemma checkIfImageNeedsUpdate_reads name w :
  forallb readsOnly (checkIfImageNeedsUpdate name w).2 = true.
Proof.
  unfold checkIfImageNeedsUpdate, getRemoteImageId. unfold_async.
  destruct (inspect (ByName name) w) as [[d|e1] w1]; simpl; [|done].
  destruct (pull _ w1) as [[rid|e2] w2]; simpl.
  - destruct (followProgress _ _ w2) as [[out|e3] w3]; simpl; [|done].
    destruct (imageInspect _ w3) as [[img|e4] w4]; simpl; [|done].
    by case_if.
  - repeat case_decide; simpl; [| |done].
    all: destruct (imageInspect _ w2) as [[img|e4] w4]; simpl; [|done].
    all: by case_if.
Qed.

Lemma NoDrift_reads cs w w' tr :
  NoDrift cs w w' tr → forallb readsOnly tr = true.
Proof.
  induction 1 as [|info name rest w w1 t1 w2 t2 _ Hcheck _ IH]; [done|].
  rewrite forallb_app, IH, andb_true_r.
  pose proof (checkIfImageNeedsUpdate_reads name w) as Hr.
  by rewrite Hcheck in Hr.
Qed.

(** What a pass does: the listing, then detections that only read, then
    either nothing more or the replacement of the first entry that
    drifted. *)
Lemma pass_cases w :
  (∃ ok w' t0,
     checkForUpdates w = (Ok (), w', Issued CList :: Awaited CList ok :: t0)
     ∧ forallb readsOnly t0 = true
     ∧ containers w' = containers w)
  ∨ (∃ info name w3 t0,
       forallb readsOnly t0 = true
       ∧ containers w3 = containers w
       ∧ checkForUpdates w =
           let '(r, w4, t4) := updateImage info name w3 in
           (r, w4, Issued CList :: Awaited CList true :: t0 ++ t4)).
Proof.
  unfold checkForUpdates. unfold_async.
  destruct (listContainers w) as [[cs|e] w1] eqn:Hlist; simpl.
  2:{ left. eexists _, _, _. split; [done|]. split; [done|].
      by apply listContainers_containers in Hlist. }
  destruct (listContainers_ok _ _ _ Hlist) as [Hw1 Hcs].
  assert (Hnames : Forall (λ info, ∃ name, firstName info = mret name) cs).
  { rewrite Hcs. apply Forall_fmap, Forall_forall. intros c _.
    exists (cName c). apply firstName_summary. }
  assert (Hsame : containers w1 = containers w) by by subst w1.
  destruct (scan_spec cs Hnames w1)
    as [(w2 & t2 & Hclean & ->)
       |(pre & info & post & name & w2 & t2 & w3 & t3
         & -> & Hclean & Hname & Hdrift & ->)]; simpl.
  - left. eexists _, _, _. split; [done|]. rewrite !app_nil_r.
    split; [by eapply NoDrift_reads|].
    apply NoDrift_containers in Hclean. congruence.
  - right. exists info, name, w3, (t2 ++ t3).
    split; [|split].
    + rewrite forallb_app. erewrite NoDrift_reads by done. simpl.
      pose proof (checkIfImageNeedsUpdate_reads name w2) as Hr.
      by rewrite Hdrift in Hr.
    + apply NoDrift_containers in Hclean.
      apply checkIfImageNeedsUpdate_containers in Hdrift. congruence.
    + destruct (updateImage info name w3) as [[r w4] t4].
      by rewrite <- app_assoc.
Qed.

(** X15.  A pass rejects only through a replacement.  If [checkForUpdates]
    rejects with [e], then the listing succeeded, detection resolved to
    no-update for the entries [pre] of the listing, in order, and to drift
    for the next entry [info], and the replacement of [info], run on the
    engine these detections left, rejected with [e]; the trace of the pass
    is the listing, these detections and that replacement.  So a failure of
    the listing or of a detection never rejects the pass, and the pass
    rejects with no error but that of the replacement. *)
Theorem pass_rejects_only_through_replacement w e w' tr :
  checkForUpdates w = (Throw e, w', tr) →
  ∃ cs w1 pre info post name w2 t2 w3 t3 t4,
    listContainers w = (Ok cs, w1)
    ∧ cs = pre ++ info :: post
    ∧ NoDrift pre w1 w2 t2
    ∧ firstName info = mret name
    ∧ checkIfImageNeedsUpdate name w2 = (Ok true, w3, t3)
    ∧ containers w3 = containers w
    ∧ updateImage info name w3 = (Throw e, w', t4)
    ∧ tr = Issued CList :: Awaited CList true :: t2 ++ t3 ++ t4.
Proof.
  unfold checkForUpdates. unfold_async.
  destruct (listContainers w) as [[cs|e0] w1] eqn:Hlist; simpl;
    [|intros Hrun; discriminate Hrun].
  destruct (listContainers_ok _ _ _ Hlist) as [Hw1 Hcs].
  assert (Hnames : Forall (λ info, ∃ name, firstName info = mret name) cs).
  { rewrite Hcs. apply Forall_fmap, Forall_forall. intros c _.
    exists (cName c). apply firstName_summary. }
  assert (Hsame : containers w1 = containers w) by by subst w1.
  destruct (scan_spec cs Hnames w1)
    as [(w2 & t2 & Hclean & ->)
       |(pre & info & post & name & w2 & t2 & w3 & t3
         & Hsplit & Hclean & Hname & Hdrift & ->)]; simpl;
    [intros Hrun; discriminate Hrun|].
  destruct (updateImage info name w3) as [[r w4] t4] eqn:Hupd.
  intros [= -> -> <-].
  exists cs, w1, pre, info, post, name, w2, t2, w3, t3, t4.
  apply NoDrift_containers in Hclean as Hcont.
  apply checkIfImageNeedsUpdate_containers in Hdrift as Hcont'.
  repeat split; try done; [congruence|].
  by rewrite <- app_assoc.
Qed.

Lemma pass_rejects_only_through_replacement_witness :
  ∃ cs w1 pre info post name w2 t2 w3 t3 t4,
    listContainers rollbackFails = (Ok cs, w1)
    ∧ cs = pre ++ info :: post
    ∧ NoDrift pre w1 w2 t2
    ∧ firstName info = mret name
    ∧ checkIfImageNeedsUpdate name w2 = (Ok true, w3, t3)
    ∧ containers w3 = containers rollbackFails
    ∧ updateImage info name w3
      = (Throw (EngineError 503), (checkForUpdates rollbackFails).1.2, t4)
    ∧ (checkForUpdates rollbackFails).2
      = Issued CList :: Awaited CList true :: t2 ++ t3 ++ t4.
Proof.
  eapply (pass_rejects_only_through_replacement rollbackFails).
  vm_compute. reflexivity.
Defined.

(** X16.  A pass replaces at most one container: it issues at most one
    creation and at most one removal. *)
Theorem pass_creates_and_removes_at_most_one w :
  (length (List.filter isCreate (checkForUpdates w).2) ≤ 1)%nat
  ∧ (length (List.filter isRemove (checkForUpdates w).2) ≤ 1)%nat.
Proof.
  destruct (pass_cases w)
    as [(ok & w1 & t0 & -> & Hreads & _)
       |(info & name & w3 & t0 & Hreads & _ & ->)].
  - destruct (reads_no_create _ Hreads) as [Hc Hr].
    simpl. rewrite Hc, Hr. simpl. lia.
  - pose proof (updateImage_counts info name w3) as Hcounts.
    destruct (updateImage info name w3) as [[r w4] t4].
    destruct (reads_no_create _ Hreads) as [Hc Hr].
    simpl in *. rewrite !List.filter_app, Hc, Hr. done.
Qed.

(** When listing the containers fails, the pass resolves having issued no
    other call. *)
Theorem pass_survives_listing_failure w e w1 :
  listContainers w = (Throw e, w1) →
  checkForUpdates w = (Ok (), w1, [Issued CList; Awaited CList false]).
Proof. intros Hlist. unfold checkForUpdates. unfold_async. by rewrite Hlist. Qed.

Lemma pass_survives_listing_failure_witness :
  checkForUpdates (world cached [Fail 500])
  = (Ok (), world cached [], [Issued CList; Awaited CList false]).
Proof.
  apply (pass_survives_listing_failure _ (EngineError 500)).
  vm_compute. reflexivity.
Defined.

End MorePass.

(** ** Detection after a replacement *)

Section Convergence.

(** A replacement on an engine that answers every call, for a target whose
    name is unique, whose temporary name is free and whose image is cached:
    every step succeeds. *)
Lemma replacement_nofault info target w old iid :
  faults w = [] →
  named target w = [old] →
  named (target +:+ "-old-temp") w = [] →
  images w !! cImage old = Some iid →
  ∃ new w' tr,
    updateImage info target w = (Ok (), w', tr)
    ∧ faults w' = [] ∧ images w' = images w ∧ registry w' = registry w
    ∧ named target w' = [new]
    ∧ cImage new = cImage old ∧ cImageId new = iid.
Proof.
  intros Hf Hold Htemp Himg.
  pose proof (temp_name_fresh target) as Hfresh.
  assert (Hlook : lookupC (ByName target) (containers w) = Some old).
  { rewrite lookupC_named. by rewrite Hold. }
  assert (Hi : inspect (ByName target) w = (Ok (inspectData old), w)).
  { rewrite inspect_nofault by done. by rewrite Hlook. }
  assert (Hr := rename_nofault (ByName target) (target +:+ "-old-temp") w Hf).
  rewrite Hlook in Hr. specialize (Hr (mk_is_Some _ _ eq_refl)).
  rewrite lookupC_named, Htemp in Hr. specialize (Hr eq_refl).
  set (w2 := setContainers
               (updateC (ByName target) (withName (target +:+ "-old-temp"))
                  (containers w)) w) in *.
  destruct (payload_contents info (inspectData old) target) as (Hpn & Hpi & _).
  destruct (createContainer_nofault
              (createContainerPayload info (inspectData old) target)
              target (cImage old) iid w2) as (w3 & Hc & Hf3 & Him3 & Hrg3);
    [done|exact Hpn|exact Hpi| |done|].
  { rewrite lookupC_named. unfold named, w2. simpl.
    by rewrite named_rename_away. }
  destruct (steps_1_to_3 _ _ _ _ _ _ _ _ Hi Hr Hc)
    as (c3 & Hnew3 & Hkept3 & Hid3 & _).
  assert (Hs := stop_nofault (ByName (target +:+ "-old-temp")) w3 Hf3).
  rewrite Hold in Hkept3.
  specialize (Hs ltac:(apply named_is_Some; intros Hnil;
                       by rewrite Hnil in Hkept3)).
  set (w4 := setContainers
               (updateC (ByName (target +:+ "-old-temp")) (withRunning false)
                  (containers w3)) w3) in *.
  assert (Hf4 : faults w4 = []) by done.
  assert (Hst := start_nofault (ById (nextId w2)) w4 Hf4).
  assert (Hin4 : c3 ∈ containers w4 ∧ cId c3 = nextId w2).
  { split; [|exact Hid3]. unfold w4. simpl. unfold updateC.
    apply list_elem_of_fmap. exists c3.
    assert (Hc3 : c3 ∈ named target w3) by (rewrite Hnew3; by left).
    apply list_elem_of_filter in Hc3 as [Hname Hc3].
    rewrite decide_False by (simpl; congruence). done. }
  specialize (Hst (lookupC_is_Some (ById (nextId w2)) c3 _
                     (proj1 Hin4) (proj2 Hin4))).
  change (nextId w2) with (nextId w) in Hc, Hst.
  set (w5 := setContainers
               (updateC (ById (nextId w)) (withRunning true) (containers w4))
               w4) in *.
  assert (Hf5 : faults w5 = []) by done.
  destruct (steps_1_to_5 _ _ _ _ _ _ _ _ _ _ Hi Hr Hc Hs Hst)
    as (old' & new & Hold' & Hnew & Hkept & Hid & Himage & Hcache).
  rewrite Hlook in Hold'. injection Hold' as <-.
  rewrite Hold in Hkept.
  assert (Hrm := remove_nofault (ByName (target +:+ "-old-temp")) w5 Hf5).
  specialize (Hrm ltac:(apply named_is_Some; intros Hnil;
                        by rewrite Hnil in Hkept)).
  exists new. eexists _, _. split.
  { unfold updateImage.
    rewrite !containerManagement_rename, containerManagement_stop,
      containerManagement_remove.
    unfold_async. rewrite Hi. simpl. rewrite Hr. simpl. rewrite Hc. simpl.
    rewrite Hs. simpl. rewrite Hst. simpl. rewrite Hrm. simpl. done. }
  simpl. split; [done|]. split; [by rewrite Him3|]. split; [by rewrite Hrg3|].
  split; [|split; [done|]].
  - unfold named in *. simpl.
    by rewrite named_remove_other by done.
  - rewrite Himg in Hcache. by injection Hcache as <-.
Qed.

(** X17.  Replacing settles the drift.  On an engine that answers every
    call, for a target whose name is unique and whose temporary name is
    free: when detection reports drift, the replacement that follows
    resolves, and detection on the engine it leaves reports no drift. *)
Theorem replaced_container_is_up_to_date info target w old w1 t1 r w2 t2 :
  faults w = [] →
  named target w = [old] →
  named (target +:+ "-old-temp") w = [] →
  checkIfImageNeedsUpdate target w = (Ok true, w1, t1) →
  updateImage info target w1 = (r, w2, t2) →
  r = Ok () ∧ (checkIfImageNeedsUpdate target w2).1.1 = Ok false.
Proof.
  intros Hf Hold Htemp Hdrift Hrepl.
  assert (Hlook : lookupC (ByName target) (containers w) = Some old).
  { rewrite lookupC_named. by rewrite Hold. }
  destruct (detection_nofault target w Hf)
    as (b & w1' & t1' & Hrun & Hf1 & Hcs1 & Hrg1 & _ & _ & Hanswer).
  rewrite Hdrift in Hrun. injection Hrun as <- <- <-.
  specialize (Hanswer old Hlook).
  pose proof (detection_nofault_cache target w old Hf Hlook) as Hcache1.
  rewrite Hdrift in Hcache1. simpl in Hcache1.
  destruct (images w1 !! cImage old) as [iid|] eqn:Himg; [|done].
  destruct (replacement_nofault info target w1 old iid)
    as (new & w2' & t2' & Hrun & Hf2 & Him2 & Hrg2 & Hnew & Hnimg & Hnid);
    [done|by unfold named in *; rewrite Hcs1..|done|].
  rewrite Hrepl in Hrun. injection Hrun as -> <- <-. split; [done|].
  assert (Hlook2 : lookupC (ByName target) (containers w2) = Some new).
  { rewrite lookupC_named. by rewrite Hnew. }
  destruct (detection_nofault target w2 Hf2)
    as (b & w3 & t3 & Hrun & _ & _ & _ & _ & _ & Hanswer2).
  specialize (Hanswer2 new Hlook2).
  pose proof (detection_nofault_cache target w2 new Hf2 Hlook2) as Hcache2.
  rewrite Hrun in Hcache2 |- *. simpl in *. f_equal.
  rewrite Hanswer2, Hcache2, Hnimg, Hrg2, Him2, Hrg1.
  destruct (registry w !! cImage old) as [rid|] eqn:Hreg.
  - rewrite lookup_insert_eq.
    rewrite Hcache1, lookup_insert_eq in Himg. injection Himg as ->.
    rewrite Hnid. apply bool_decide_eq_false_2. tauto.
  - rewrite Himg, Hnid. apply bool_decide_eq_false_2. tauto.
Qed.

Lemma replaced_container_is_up_to_date_witness :
  (updateImage info "web" (checkIfImageNeedsUpdate "web" (world cached [])).1.2).1.1
  = Ok ()
  ∧ (checkIfImageNeedsUpdate "web"
       (updateImage info "web"
          (checkIfImageNeedsUpdate "web" (world cached [])).1.2).1.2).1.1
    = Ok false.
Proof.
  eapply (replaced_container_is_up_to_date info "web" (world cached []) web).
  - reflexivity.
  - reflexivity.
  - reflexivity.
  - vm_compute. reflexivity.
  - vm_compute. reflexivity.
Defined.

End Convergence.
